(** * Block maintenance of the consensus set (modules/consensus/maintenance.go)

    A shallow embedding of [applyMinerPayouts], [applyMaturedSiacoinOutputs],
    [applyTxMissedStorageProof], [applyFileContractMaintenance] and
    [applyMaintenance], and the properties of them that the specification
    states.

    The Go functions receive two pointers, the open database transaction
    [tx] and the processed block [pb], mutate both in place and return an
    [error]; a failed sanity check panics.  They are embedded as computations
    in a state monad over the pair (transaction, processed block) whose result
    is either a normal return, a returned error or a panic; the state is kept
    in all three cases, as the caller of the Go function still holds both
    pointers. *)

From Stdlib Require Import ZArith String List Bool Lia.
From Stdlib.Strings Require Import Byte.
Import ListNotations.
Open Scope Z_scope.

(** ** Data model *)

(** [crypto.Hash] is a 32-byte array; identifiers are hashes. *)
Definition Hash := list byte.
Definition HashSize : nat := 32.
Definition SiacoinOutputID := Hash.
Definition FileContractID := Hash.

(** [types.BlockHeight] is an unsigned 64-bit integer: addition wraps. *)
Definition BlockHeight := Z.
Definition uint64_wrap (z : Z) : Z := z mod 2 ^ 64.
Definition height_add (a b : BlockHeight) : BlockHeight := uint64_wrap (a + b).

Record SiacoinOutput := {
  Value : Z;
  UnlockHash : Hash
}.

(** Of a file contract the maintenance code reads the end of the proof
    window and the outputs paid when the proof is missed. *)
Record FileContract := {
  WindowEnd : BlockHeight;
  MissedProofOutputs : list SiacoinOutput
}.

Inductive DiffDirection := DiffApply | DiffRevert.
Inductive ProofStatus := ProofValid | ProofMissed.

Record SiacoinOutputDiff := {
  scod_Direction : DiffDirection;
  scod_ID : SiacoinOutputID;
  scod_SiacoinOutput : SiacoinOutput
}.

Record DelayedSiacoinOutputDiff := {
  dscod_Direction : DiffDirection;
  dscod_ID : SiacoinOutputID;
  dscod_SiacoinOutput : SiacoinOutput;
  dscod_MaturityHeight : BlockHeight
}.

Record FileContractDiff := {
  fcd_Direction : DiffDirection;
  fcd_ID : FileContractID;
  fcd_FileContract : FileContract
}.

(** The four errors the file declares, and the errors that come back from
    the database layer. *)
Inductive error :=
| errMissingFileContract
| errOutputAlreadyMature
| errPayoutsAlreadyPaid
| errStorageProofTiming
| errExternal (msg : string).

(** How a call ends: it returns a value, it returns an error, or it
    panics. *)
Inductive outcome (A : Type) :=
| Returned (a : A)
| Failed (e : error)
| Panicked (e : error).
Arguments Returned {A} a.
Arguments Failed {A} e.
Arguments Panicked {A} e.

(** ** Collaborators

    Everything the file calls but does not define: the chain constant, the
    build flag, the identifier derivations of package [types], the bolt
    transaction and the database helpers of package [consensus].  The
    maintenance code is embedded over an arbitrary implementation of them.
    A helper with Go result [error] returns [None] for [nil], together with
    the transaction as it left it. *)
Class Collaborators := {
  Tx : Type;
  types_Block : Type;
  MinerPayouts : types_Block -> list SiacoinOutput;
  MinerPayoutID : types_Block -> Z -> SiacoinOutputID;
  StorageProofOutputID : FileContractID -> ProofStatus -> Z -> SiacoinOutputID;
  MaturityDelay : BlockHeight;
  DEBUG : bool;
  prefix_fcex : list byte;
  Marshal : BlockHeight -> list byte;
  (** [tx.Bucket(name)]: [None] is the nil bucket, otherwise the key/value
      pairs in the order [ForEach] walks them. *)
  Bucket : Tx -> list byte -> option (list (list byte * list byte));
  (** The entries [forEachDSCO] walks at a height. *)
  dscoBucket : Tx -> BlockHeight -> list (SiacoinOutputID * SiacoinOutput);
  isSiacoinOutput : Tx -> SiacoinOutputID -> bool;
  getFileContract : Tx -> FileContractID -> error + FileContract;
  commitSiacoinOutputDiff :
    Tx -> SiacoinOutputDiff -> DiffDirection -> option error * Tx;
  commitDelayedSiacoinOutputDiff :
    Tx -> DelayedSiacoinOutputDiff -> DiffDirection -> option error * Tx;
  commitFileContractDiff :
    Tx -> FileContractDiff -> DiffDirection -> option error * Tx;
  deleteDSCOBucket : Tx -> BlockHeight -> option error * Tx
}.

Section Maintenance.
Context {C : Collaborators}.

Record processedBlock := {
  Block : types_Block;
  Height : BlockHeight;
  SiacoinOutputDiffs : list SiacoinOutputDiff;
  DelayedSiacoinOutputDiffs : list DelayedSiacoinOutputDiff;
  FileContractDiffs : list FileContractDiff
}.

(** ** The monad of maintenance code *)

Record St := { st_tx : Tx; st_pb : processedBlock }.

Definition M (A : Type) := St -> outcome A * St.

Definition ret {A} (a : A) : M A := fun s => (Returned a, s).

Definition bind {A B} (m : M A) (k : A -> M B) : M B :=
  fun s =>
    match m s with
    | (Returned a, s') => k a s'
    | (Failed e, s') => (Failed e, s')
    | (Panicked e, s') => (Panicked e, s')
    end.

Definition fail {A} (e : error) : M A := fun s => (Failed e, s).
Definition panic {A} (e : error) : M A := fun s => (Panicked e, s).
Definition get_tx : M Tx := fun s => (Returned (st_tx s), s).
Definition get_pb : M processedBlock := fun s => (Returned (st_pb s), s).

(** A database helper called on [tx]: [if err != nil { return err }]. *)
Definition call (f : Tx -> option error * Tx) : M unit :=
  fun s =>
    let (r, tx') := f (st_tx s) in
    (match r with None => Returned tt | Some e => Failed e end,
     {| st_tx := tx'; st_pb := st_pb s |}).

Definition update_pb (f : processedBlock -> processedBlock) : M unit :=
  fun s => (Returned tt, {| st_tx := st_tx s; st_pb := f (st_pb s) |}).

End Maintenance.

Notation "x <- m ;; k" := (bind m (fun x => k))
  (at level 61, m at next level, right associativity).
Notation "m ;; k" := (bind m (fun _ => k))
  (at level 61, right associativity).

Section Stages.
Context {C : Collaborators}.

(** [pb.X = append(pb.X, d)] for the three diff sequences. *)
Definition append_scod (d : SiacoinOutputDiff) : M unit :=
  update_pb (fun pb =>
    {| Block := Block pb; Height := Height pb;
       SiacoinOutputDiffs := SiacoinOutputDiffs pb ++ [d];
       DelayedSiacoinOutputDiffs := DelayedSiacoinOutputDiffs pb;
       FileContractDiffs := FileContractDiffs pb |}).

Definition append_dscod (d : DelayedSiacoinOutputDiff) : M unit :=
  update_pb (fun pb =>
    {| Block := Block pb; Height := Height pb;
       SiacoinOutputDiffs := SiacoinOutputDiffs pb;
       DelayedSiacoinOutputDiffs := DelayedSiacoinOutputDiffs pb ++ [d];
       FileContractDiffs := FileContractDiffs pb |}).

Definition append_fcd (d : FileContractDiff) : M unit :=
  update_pb (fun pb =>
    {| Block := Block pb; Height := Height pb;
       SiacoinOutputDiffs := SiacoinOutputDiffs pb;
       DelayedSiacoinOutputDiffs := DelayedSiacoinOutputDiffs pb;
       FileContractDiffs := FileContractDiffs pb ++ [d] |}).

(** A [ForEach] over the entries of a bucket: the callback runs on each
    entry in turn and the first error (or panic) ends the walk. *)
Fixpoint forEach {K V} (entries : list (K * V)) (fn : K -> V -> M unit)
  : M unit :=
  match entries with
  | [] => ret tt
  | (k, v) :: rest => fn k v ;; forEach rest fn
  end.

(** Go's [copy(dst, src)]: the first [min (len dst) (len src)] elements of
    [dst] are overwritten. *)
Definition copy {A} (dst src : list A) : list A :=
  firstn (length dst) src ++ skipn (length src) dst.

(** ** applyMinerPayouts *)

Definition minerPayoutDiff (pb : processedBlock) (i : nat)
    (payout : SiacoinOutput) : DelayedSiacoinOutputDiff :=
  {| dscod_Direction := DiffApply;
     dscod_ID := MinerPayoutID (Block pb) (Z.of_nat i);
     dscod_SiacoinOutput := payout;
     dscod_MaturityHeight := height_add (Height pb) MaturityDelay |}.

(** The body of [for i := range pb.Block.MinerPayouts], from index [i] on,
    [rest] being the payouts at the indices not yet visited. *)
Fixpoint applyMinerPayouts_from (i : nat) (rest : list SiacoinOutput)
  : M unit :=
  match rest with
  | [] => ret tt
  | payout :: rest' =>
      pb <- get_pb ;;
      let dscod := minerPayoutDiff pb i payout in
      append_dscod dscod ;;
      call (fun tx => commitDelayedSiacoinOutputDiff tx dscod DiffApply) ;;
      applyMinerPayouts_from (S i) rest'
  end.

Definition applyMinerPayouts : M unit :=
  pb <- get_pb ;;
  applyMinerPayouts_from 0 (MinerPayouts (Block pb)).

(** ** applyMaturedSiacoinOutputs *)

Definition maturedDiff (id : SiacoinOutputID) (sco : SiacoinOutput)
  : SiacoinOutputDiff :=
  {| scod_Direction := DiffApply; scod_ID := id; scod_SiacoinOutput := sco |}.

Definition consumedDiff (pb : processedBlock) (id : SiacoinOutputID)
    (sco : SiacoinOutput) : DelayedSiacoinOutputDiff :=
  {| dscod_Direction := DiffRevert;
     dscod_ID := id;
     dscod_SiacoinOutput := sco;
     dscod_MaturityHeight := Height pb |}.

(** The function literal passed to [forEachDSCO]. *)
Definition maturedVisit (id : SiacoinOutputID) (sco : SiacoinOutput)
  : M unit :=
  tx <- get_tx ;;
  if DEBUG && isSiacoinOutput tx id then panic errOutputAlreadyMature
  else
    let scod := maturedDiff id sco in
    append_scod scod ;;
    call (fun tx => commitSiacoinOutputDiff tx scod DiffApply) ;;
    pb <- get_pb ;;
    let dscod := consumedDiff pb id sco in
    append_dscod dscod ;;
    call (fun tx => commitDelayedSiacoinOutputDiff tx dscod DiffApply).

(** Modelled from the spec: [forEachDSCO] is defined in the database layer
    of the package, outside this file.  Section 4.2 ([drainAt]): it
    enumerates every entry indexed at the height, calls the visitor on each
    and propagates the first error of the visitor; with no entry at the
    height it is a successful no-op.  The entries are those of the bucket
    when the walk starts. *)
Definition forEachDSCO (h : BlockHeight)
    (fn : SiacoinOutputID -> SiacoinOutput -> M unit) : M unit :=
  tx <- get_tx ;;
  forEach (dscoBucket tx h) fn.

Definition applyMaturedSiacoinOutputs : M unit :=
  pb <- get_pb ;;
  if negb (Height pb >? MaturityDelay) then ret tt
  else
    forEachDSCO (Height pb) maturedVisit ;;
    call (fun tx => deleteDSCOBucket tx (Height pb)).

(** ** applyTxMissedStorageProof *)

Definition missedProofDiff (pb : processedBlock) (fcid : FileContractID)
    (i : nat) (mpo : SiacoinOutput) : DelayedSiacoinOutputDiff :=
  {| dscod_Direction := DiffApply;
     dscod_ID := StorageProofOutputID fcid ProofMissed (Z.of_nat i);
     dscod_SiacoinOutput := mpo;
     dscod_MaturityHeight := height_add (Height pb) MaturityDelay |}.

(** The body of [for i, mpo := range fc.MissedProofOutputs], from index [i]
    on. *)
Fixpoint missedProofOutputs_from (fcid : FileContractID) (i : nat)
    (rest : list SiacoinOutput) : M unit :=
  match rest with
  | [] => ret tt
  | mpo :: rest' =>
      let spoid := StorageProofOutputID fcid ProofMissed (Z.of_nat i) in
      tx <- get_tx ;;
      (if DEBUG
       then if isSiacoinOutput tx spoid then panic errPayoutsAlreadyPaid
            else ret tt
       else ret tt) ;;
      pb <- get_pb ;;
      let dscod := missedProofDiff pb fcid i mpo in
      append_dscod dscod ;;
      call (fun tx => commitDelayedSiacoinOutputDiff tx dscod DiffApply) ;;
      missedProofOutputs_from fcid (S i) rest'
  end.

Definition expiredDiff (fcid : FileContractID) (fc : FileContract)
  : FileContractDiff :=
  {| fcd_Direction := DiffRevert; fcd_ID := fcid; fcd_FileContract := fc |}.

Definition applyTxMissedStorageProof (fcid : FileContractID) : M unit :=
  tx <- get_tx ;;
  match getFileContract tx fcid with
  | inl err => fail err
  | inr fc =>
      pb <- get_pb ;;
      (if DEBUG
       then if negb (WindowEnd fc =? Height pb)
            then panic errStorageProofTiming
            else ret tt
       else ret tt) ;;
      missedProofOutputs_from fcid 0 (MissedProofOutputs fc) ;;
      let fcd := expiredDiff fcid fc in
      append_fcd fcd ;;
      call (fun tx => commitFileContractDiff tx fcd DiffApply)
  end.

(** ** applyFileContractMaintenance *)

(** [var id types.FileContractID]: thirty-two zero bytes. *)
Definition zeroHash : Hash := repeat x00 HashSize.

Definition fceVisit (keyBytes valBytes : list byte) : M unit :=
  let id := copy zeroHash keyBytes in
  applyTxMissedStorageProof id.

Definition fceBucketID (pb : processedBlock) : list byte :=
  prefix_fcex ++ Marshal (Height pb).

Definition applyFileContractMaintenance : M unit :=
  pb <- get_pb ;;
  tx <- get_tx ;;
  match Bucket tx (fceBucketID pb) with
  | None => ret tt
  | Some entries => forEach entries fceVisit
  end.

(** ** applyMaintenance *)

Definition applyMaintenance : M unit :=
  applyMinerPayouts ;;
  applyMaturedSiacoinOutputs ;;
  applyFileContractMaintenance.

End Stages.

(** ** An in-memory store

    One implementation of the collaborators, used to run the maintenance
    code on concrete blocks.  The ledgers are association lists; a bucket
    keeps its entries in the order they were put.  [mem_writes] is the number
    of writes the underlying store still accepts: a write beyond it fails
    and leaves the store as it was. *)

Fixpoint bytes_eqb (a b : list byte) : bool :=
  match a, b with
  | [], [] => true
  | x :: a', y :: b' => Byte.eqb x y && bytes_eqb a' b'
  | _, _ => false
  end.

Fixpoint assoc_get {K V} (eqb : K -> K -> bool) (k : K) (l : list (K * V))
  : option V :=
  match l with
  | [] => None
  | (k', v) :: l' => if eqb k k' then Some v else assoc_get eqb k l'
  end.

Fixpoint assoc_del {K V} (eqb : K -> K -> bool) (k : K) (l : list (K * V))
  : list (K * V) :=
  match l with
  | [] => []
  | (k', v) :: l' =>
      if eqb k k' then assoc_del eqb k l' else (k', v) :: assoc_del eqb k l'
  end.

Definition assoc_put {K V} (eqb : K -> K -> bool) (k : K) (v : V)
    (l : list (K * V)) : list (K * V) :=
  assoc_del eqb k l ++ [(k, v)].

Definition byte_of_Z (z : Z) : byte :=
  match Byte.of_N (Z.to_N (z mod 256)) with
  | Some b => b
  | None => x00
  end.

(** The [n] low bytes of [z], least significant first. *)
Fixpoint le_bytes (n : nat) (z : Z) : list byte :=
  match n with
  | O => []
  | S n' => byte_of_Z z :: le_bytes n' (z / 256)
  end.

Record MemBlock := {
  blk_ID : Hash;
  blk_MinerPayouts : list SiacoinOutput
}.

Record MemTx := {
  mem_scos : list (SiacoinOutputID * SiacoinOutput);
  mem_dscos : list (BlockHeight * list (SiacoinOutputID * SiacoinOutput));
  mem_fcs : list (FileContractID * FileContract);
  mem_buckets : list (list byte * list (list byte * list byte));
  mem_writes : nat
}.

Definition errWrite : error := errExternal "write failed".

(** One write to the underlying store. *)
Definition mem_write (tx : MemTx) (f : MemTx -> MemTx) : option error * MemTx :=
  match mem_writes tx with
  | O => (Some errWrite, tx)
  | S n =>
      let tx' := f tx in
      (None, {| mem_scos := mem_scos tx'; mem_dscos := mem_dscos tx';
                mem_fcs := mem_fcs tx'; mem_buckets := mem_buckets tx';
                mem_writes := n |})
  end.

Definition with_scos (f : _ -> _) (tx : MemTx) : MemTx :=
  {| mem_scos := f (mem_scos tx); mem_dscos := mem_dscos tx;
     mem_fcs := mem_fcs tx; mem_buckets := mem_buckets tx;
     mem_writes := mem_writes tx |}.

Definition with_dscos (f : _ -> _) (tx : MemTx) : MemTx :=
  {| mem_scos := mem_scos tx; mem_dscos := f (mem_dscos tx);
     mem_fcs := mem_fcs tx; mem_buckets := mem_buckets tx;
     mem_writes := mem_writes tx |}.

Definition with_fcs (f : _ -> _) (tx : MemTx) : MemTx :=
  {| mem_scos := mem_scos tx; mem_dscos := mem_dscos tx;
     mem_fcs := f (mem_fcs tx); mem_buckets := mem_buckets tx;
     mem_writes := mem_writes tx |}.

Definition direction_eqb (a b : DiffDirection) : bool :=
  match a, b with
  | DiffApply, DiffApply | DiffRevert, DiffRevert => true
  | _, _ => false
  end.

Definition mem_dscoBucket (tx : MemTx) (h : BlockHeight)
  : list (SiacoinOutputID * SiacoinOutput) :=
  match assoc_get Z.eqb h (mem_dscos tx) with
  | Some entries => entries
  | None => []
  end.

(** Modelled from the spec: [isSiacoinOutput] is defined in the database
    layer, outside this file.  Section 6: whether the identity is in the
    spendable set. *)
Definition mem_isSiacoinOutput (tx : MemTx) (id : SiacoinOutputID) : bool :=
  match assoc_get bytes_eqb id (mem_scos tx) with
  | Some _ => true
  | None => false
  end.

(** Modelled from the spec: [getFileContract] is defined in the database
    layer, outside this file.  Sections 4.5 and 6: the contract, or the
    missing-contract error when it is not found. *)
Definition mem_getFileContract (tx : MemTx) (id : FileContractID)
  : error + FileContract :=
  match assoc_get bytes_eqb id (mem_fcs tx) with
  | Some fc => inr fc
  | None => inl errMissingFileContract
  end.

(** Modelled from the spec: [commitSiacoinOutputDiff] is defined in the
    database layer, outside this file.  Section 3: a diff is a directional
    record of one mutation of its ledger, and the same record undoes the
    mutation when it is replayed in the opposite direction; so a diff
    committed in its own direction puts the output into the spendable set
    and a diff committed in the other direction takes it out. *)
Definition mem_commitSiacoinOutputDiff (tx : MemTx) (d : SiacoinOutputDiff)
    (dir : DiffDirection) : option error * MemTx :=
  mem_write tx
    (with_scos (if direction_eqb (scod_Direction d) dir
                then assoc_put bytes_eqb (scod_ID d) (scod_SiacoinOutput d)
                else assoc_del bytes_eqb (scod_ID d))).

(** Modelled from the spec: [commitDelayedSiacoinOutputDiff] is defined in
    the database layer, outside this file.  Sections 3 and 4.2: in the
    diff's own direction the entry is inserted into the bucket of its
    maturity height; in the other direction it is taken out of that bucket
    (the step the caller comments as "Remove the delayed siacoin output
    from the consensus set"). *)
Definition mem_commitDelayedSiacoinOutputDiff (tx : MemTx)
    (d : DelayedSiacoinOutputDiff) (dir : DiffDirection)
  : option error * MemTx :=
  let h := dscod_MaturityHeight d in
  mem_write tx
    (with_dscos (fun m =>
       let bucket := match assoc_get Z.eqb h m with
                     | Some b => b
                     | None => []
                     end in
       assoc_put Z.eqb h
         (if direction_eqb (dscod_Direction d) dir
          then assoc_put bytes_eqb (dscod_ID d) (dscod_SiacoinOutput d) bucket
          else assoc_del bytes_eqb (dscod_ID d) bucket) m)).

(** Modelled from the spec: [commitFileContractDiff] is defined in the
    database layer, outside this file.  Sections 3 and 4.5: in the diff's
    own direction the contract is put into the contract ledger; in the other
    direction it is removed from it. *)
Definition mem_commitFileContractDiff (tx : MemTx) (d : FileContractDiff)
    (dir : DiffDirection) : option error * MemTx :=
  mem_write tx
    (with_fcs (if direction_eqb (fcd_Direction d) dir
               then assoc_put bytes_eqb (fcd_ID d) (fcd_FileContract d)
               else assoc_del bytes_eqb (fcd_ID d))).

(** Modelled from the spec: [deleteDSCOBucket] is defined in the database
    layer, outside this file.  Section 4.2: the index bucket of the height
    is deleted in its entirety; with no bucket at the height this is a
    successful no-op. *)
Definition mem_deleteDSCOBucket (tx : MemTx) (h : BlockHeight)
  : option error * MemTx :=
  match assoc_get Z.eqb h (mem_dscos tx) with
  | None => (None, tx)
  | Some _ => mem_write tx (with_dscos (assoc_del Z.eqb h))
  end.

Definition mem_prefix_fcex : list byte := [x66; x63; x65; x78].

Definition memStore (delay : BlockHeight) (debug : bool) : Collaborators :=
  {| Tx := MemTx;
     types_Block := MemBlock;
     MinerPayouts := blk_MinerPayouts;
     MinerPayoutID := fun b i => blk_ID b ++ le_bytes 8 i;
     StorageProofOutputID := fun fcid status i =>
       fcid ++ (match status with ProofValid => x01 | ProofMissed => x00 end)
            :: le_bytes 8 i;
     MaturityDelay := delay;
     DEBUG := debug;
     prefix_fcex := mem_prefix_fcex;
     Marshal := le_bytes 8;
     Bucket := fun tx name => assoc_get bytes_eqb name (mem_buckets tx);
     dscoBucket := mem_dscoBucket;
     isSiacoinOutput := mem_isSiacoinOutput;
     getFileContract := mem_getFileContract;
     commitSiacoinOutputDiff := mem_commitSiacoinOutputDiff;
     commitDelayedSiacoinOutputDiff := mem_commitDelayedSiacoinOutputDiff;
     commitFileContractDiff := mem_commitFileContractDiff;
     deleteDSCOBucket := mem_deleteDSCOBucket |}.

Definition mem_pb (delay : BlockHeight) (debug : bool) (b : MemBlock)
    (h : BlockHeight) : @processedBlock (memStore delay debug) :=
  @Build_processedBlock (memStore delay debug) b h [] [] [].

Definition mem_st (delay : BlockHeight) (debug : bool) (tx : MemTx)
    (b : MemBlock) (h : BlockHeight) : @St (memStore delay debug) :=
  @Build_St (memStore delay debug) tx (mem_pb delay debug b h).

(** ** Notions used to state the properties *)

Section Notions.
Context {C : Collaborators}.

(** [pb] with further diffs at the end of its three sequences. *)
Definition extend_pb (pb : processedBlock)
    (scods : list SiacoinOutputDiff)
    (dscods : list DelayedSiacoinOutputDiff)
    (fcds : list FileContractDiff) : processedBlock :=
  {| Block := Block pb; Height := Height pb;
     SiacoinOutputDiffs := SiacoinOutputDiffs pb ++ scods;
     DelayedSiacoinOutputDiffs := DelayedSiacoinOutputDiffs pb ++ dscods;
     FileContractDiffs := FileContractDiffs pb ++ fcds |}.


(** The delayed diffs of the payouts [xs], which sit at the indices from
    [i] on. *)
Fixpoint payoutDiffs (pb : processedBlock) (i : nat)
    (xs : list SiacoinOutput) : list DelayedSiacoinOutputDiff :=
  match xs with
  | [] => []
  | p :: xs' => minerPayoutDiff pb i p :: payoutDiffs pb (S i) xs'
  end.

(** The delayed diffs [ds] committed one after the other in direction
    Apply, up to the first one the store refuses. *)
Fixpoint commitDelayedAll (ds : list DelayedSiacoinOutputDiff) (tx : Tx)
  : option error * Tx :=
  match ds with
  | [] => (None, tx)
  | d :: ds' =>
      match commitDelayedSiacoinOutputDiff tx d DiffApply with
      | (None, tx') => commitDelayedAll ds' tx'
      | (Some e, tx') => (Some e, tx')
      end
  end.

(** Every contract fetched while the expiring [entries] are settled from
    state [s] on has its window end at the height of the block. *)
Fixpoint fetched_expire_now (entries : list (list byte * list byte))
    (s : St) : Prop :=
  match entries with
  | [] => True
  | (k, v) :: rest =>
      (forall fc, getFileContract (st_tx s) (copy zeroHash k) = inr fc ->
                  WindowEnd fc = Height (st_pb s)) /\
      (forall s', fceVisit k v s = (Returned tt, s') ->
                  fetched_expire_now rest s')
  end.

End Notions.

Section Relating.
Context {C : Collaborators}.

(** The diffs of the delayed outputs [entries] that mature in [pb]. *)
Definition maturedDiffs (entries : list (SiacoinOutputID * SiacoinOutput))
  : list SiacoinOutputDiff :=
  map (fun e => maturedDiff (fst e) (snd e)) entries.

Definition consumedDiffs (pb : processedBlock)
    (entries : list (SiacoinOutputID * SiacoinOutput))
  : list DelayedSiacoinOutputDiff :=
  map (fun e => consumedDiff pb (fst e) (snd e)) entries.

(** [m] relates every state it starts from to the state it leaves, whatever
    its outcome. *)
Definition preserves (R : St -> St -> Prop) {A} (m : M A) : Prop :=
  forall s, R s (snd (m s)).

(** [m] never panics with [e]. *)
Definition never_panics_with (e : error) {A} (m : M A) : Prop :=
  forall s, fst (m s) <> Panicked e.


End Relating.

(** A state of the in-memory store. *)
Definition mem_state (delay : BlockHeight) (debug : bool) (tx : MemTx)
    (pb : @processedBlock (memStore delay debug)) : @St (memStore delay debug)
  := @Build_St (memStore delay debug) tx pb.

(** ** Sample blocks and stores *)

Definition V1 : SiacoinOutput := {| Value := 100; UnlockHash := [x01] |}.
Definition V2 : SiacoinOutput := {| Value := 7; UnlockHash := [x02] |}.

Definition emptyTx (w : nat) : MemTx :=
  {| mem_scos := []; mem_dscos := []; mem_fcs := []; mem_buckets := [];
     mem_writes := w |}.

(** A block without payouts, a block with one and a block with three. *)
Definition blkOne : MemBlock := {| blk_ID := [xa0]; blk_MinerPayouts := [V1] |}.
Definition blkNone : MemBlock := {| blk_ID := [xbb]; blk_MinerPayouts := [] |}.
Definition blkThree : MemBlock :=
  {| blk_ID := [xaa]; blk_MinerPayouts := [V1; V2; V1] |}.

Definition idA : SiacoinOutputID := xa1 :: repeat x00 31.
Definition idB : SiacoinOutputID := xb2 :: repeat x00 31.

(** Two delayed outputs that mature at height 15. *)
Definition txMaturing (w : nat) : MemTx :=
  {| mem_scos := []; mem_dscos := [(15, [(idA, V1); (idB, V2)])];
     mem_fcs := []; mem_buckets := []; mem_writes := w |}.

(** One delayed output at height 3. *)
Definition txYoung (w : nat) : MemTx :=
  {| mem_scos := []; mem_dscos := [(3, [(idA, V1)])];
     mem_fcs := []; mem_buckets := []; mem_writes := w |}.

Definition fcidC : FileContractID := xc1 :: repeat x00 31.
Definition fcidD : FileContractID := xd2 :: repeat x00 31.
Definition fcidE : FileContractID := xe3 :: repeat x00 31.

Definition fcNow : FileContract :=
  {| WindowEnd := 20; MissedProofOutputs := [V1; V2] |}.
Definition fcLate : FileContract :=
  {| WindowEnd := 21; MissedProofOutputs := [V1] |}.

Definition fcex20 : list byte := mem_prefix_fcex ++ le_bytes 8 20.

(** One contract expires at height 20. *)
Definition txExpiring (w : nat) : MemTx :=
  {| mem_scos := []; mem_dscos := []; mem_fcs := [(fcidC, fcNow)];
     mem_buckets := [(fcex20, [(fcidC, [])])]; mem_writes := w |}.

(** Three identities are indexed at height 20; the contract of the second
    one is not in the contract ledger. *)
Definition txMissing (w : nat) : MemTx :=
  {| mem_scos := []; mem_dscos := [];
     mem_fcs := [(fcidC, fcNow); (fcidE, fcNow)];
     mem_buckets := [(fcex20, [(fcidC, []); (fcidD, []); (fcidE, [])])];
     mem_writes := w |}.

(** The second contract indexed at height 20 ends its window at 21. *)
Definition txMistimed (w : nat) : MemTx :=
  {| mem_scos := []; mem_dscos := [];
     mem_fcs := [(fcidC, fcNow); (fcidD, fcLate)];
     mem_buckets := [(fcex20, [(fcidC, []); (fcidD, [])])];
     mem_writes := w |}.

(** ** Further notions and sample stores *)

(** The Go result [error] of a helper, as the outcome of the call. *)
Definition returned_or (r : option error) : outcome unit :=
  match r with
  | None => Returned tt
  | Some e => Failed e
  end.

Section Settling.
Context {C : Collaborators}.

(** The delayed diffs of the missed-proof outputs [xs] of the contract
    [fcid], which sit at the indices from [i] on. *)
Fixpoint missedProofDiffs (pb : processedBlock) (fcid : FileContractID)
    (i : nat) (xs : list SiacoinOutput) : list DelayedSiacoinOutputDiff :=
  match xs with
  | [] => []
  | mpo :: xs' =>
      missedProofDiff pb fcid i mpo :: missedProofDiffs pb fcid (S i) xs'
  end.

(** How many of the diffs [ds] reach the store when they are committed one
    after the other: all of them, or those up to and including the first
    one the store refuses. *)
Fixpoint commitDelayedTried (ds : list DelayedSiacoinOutputDiff) (tx : Tx)
  : nat :=
  match ds with
  | [] => O
  | d :: ds' =>
      match commitDelayedSiacoinOutputDiff tx d DiffApply with
      | (None, tx') => S (commitDelayedTried ds' tx')
      | (Some _, _) => 1%nat
      end
  end.

(** [m] never returns the error [e]. *)
Definition never_returns (e : error) {A} (m : M A) : Prop :=
  forall s, fst (m s) <> Failed e.

End Settling.

(** The first delayed output maturing at height 15 is already in the
    spendable set. *)
Definition txAlreadyMature (w : nat) : MemTx :=
  {| mem_scos := [(idB, V2)]; mem_dscos := [(15, [(idA, V1); (idB, V2)])];
     mem_fcs := []; mem_buckets := []; mem_writes := w |}.

(** The second missed-proof output of the contract expiring at height 20 is
    already in the spendable set. *)
Definition txAlreadyPaid (w : nat) : MemTx :=
  {| mem_scos := [(fcidC ++ x00 :: le_bytes 8 1, V2)]; mem_dscos := [];
     mem_fcs := [(fcidC, fcNow)];
     mem_buckets := [(fcex20, [(fcidC, [])])]; mem_writes := w |}.


(** At height 20 the bucket of the delayed ledger is there and holds
    nothing, and the store accepts no write. *)
Definition txEmptyBucket : MemTx :=
  {| mem_scos := []; mem_dscos := [(20, [])]; mem_fcs := [];
     mem_buckets := []; mem_writes := 0 |}.



(** ** The in-memory store with its delayed ledger behind [tx.Bucket]

    The same store, read differently: the bucket of the delayed outputs of
    a height is also visible through [tx.Bucket], under a prefix followed
    by the marshalled height, as the expiry bucket is.  Committing a delayed
    diff then writes a bucket. *)






(** * Properties *)

Section Basics.
Context {C : Collaborators}.

(** ** The accumulator and the primitive steps *)

Lemma extend_pb_nil pb : extend_pb pb [] [] [] = pb.
Proof. destruct pb. unfold extend_pb. simpl. now rewrite !app_nil_r. Qed.

Lemma extend_pb_extend pb a b c a' b' c' :
  extend_pb (extend_pb pb a b c) a' b' c' =
  extend_pb pb (a ++ a') (b ++ b') (c ++ c').
Proof. unfold extend_pb. simpl. now rewrite !app_assoc. Qed.




Lemma append_scod_run d s :
  append_scod d s =
  (Returned tt, {| st_tx := st_tx s; st_pb := extend_pb (st_pb s) [d] [] [] |}).
Proof.
  unfold append_scod, update_pb, extend_pb. now rewrite !app_nil_r.
Qed.

Lemma append_dscod_run d s :
  append_dscod d s =
  (Returned tt, {| st_tx := st_tx s; st_pb := extend_pb (st_pb s) [] [d] [] |}).
Proof.
  unfold append_dscod, update_pb, extend_pb. now rewrite !app_nil_r.
Qed.

Lemma append_fcd_run d s :
  append_fcd d s =
  (Returned tt, {| st_tx := st_tx s; st_pb := extend_pb (st_pb s) [] [] [d] |}).
Proof.
  unfold append_fcd, update_pb, extend_pb. now rewrite !app_nil_r.
Qed.

(** A helper call leaves the processed block alone. *)
Lemma call_run f s :
  call f s =
  (match fst (f (st_tx s)) with None => Returned tt | Some e => Failed e end,
   {| st_tx := snd (f (st_tx s)); st_pb := st_pb s |}).
Proof. unfold call. now destruct (f (st_tx s)). Qed.

(** The diffs built from [pb] read its block and its height only. *)
Lemma minerPayoutDiff_extend pb a b c i p :
  minerPayoutDiff (extend_pb pb a b c) i p = minerPayoutDiff pb i p.
Proof. reflexivity. Qed.

Lemma payoutDiffs_extend pb a b c xs : forall i,
  payoutDiffs (extend_pb pb a b c) i xs = payoutDiffs pb i xs.
Proof. induction xs as [|p xs IH]; intros i; simpl; [|rewrite IH]; reflexivity. Qed.


(** ** applyMinerPayouts *)

Lemma applyMinerPayouts_from_ok xs : forall i tx pb tx',
  commitDelayedAll (payoutDiffs pb i xs) tx = (None, tx') ->
  applyMinerPayouts_from i xs {| st_tx := tx; st_pb := pb |} =
  (Returned tt,
   {| st_tx := tx'; st_pb := extend_pb pb [] (payoutDiffs pb i xs) [] |}).
Proof.
  induction xs as [|p xs IH]; intros i tx pb tx' H; simpl in *.
  - injection H as <-. now rewrite extend_pb_nil.
  - destruct (commitDelayedSiacoinOutputDiff tx (minerPayoutDiff pb i p)
                DiffApply) as [[e|] tx1] eqn:E; [discriminate|].
    unfold bind at 1. simpl. unfold bind at 1. rewrite append_dscod_run.
    simpl. unfold bind at 1. rewrite call_run. simpl. rewrite E. simpl.
    rewrite (IH (S i) tx1 _ tx').
    + now rewrite payoutDiffs_extend, extend_pb_extend.
    + now rewrite payoutDiffs_extend.
Qed.

Lemma applyMinerPayouts_from_fail pre : forall i tx pb tx1 p post e tx2,
  commitDelayedAll (payoutDiffs pb i pre) tx = (None, tx1) ->
  commitDelayedSiacoinOutputDiff tx1
    (minerPayoutDiff pb (i + List.length pre) p) DiffApply = (Some e, tx2) ->
  applyMinerPayouts_from i (pre ++ p :: post) {| st_tx := tx; st_pb := pb |} =
  (Failed e,
   {| st_tx := tx2;
      st_pb := extend_pb pb [] (payoutDiffs pb i (pre ++ [p])) [] |}).
Proof.
  induction pre as [|q pre IH]; intros i tx pb tx1 p post e tx2 H1 H2;
    simpl in *.
  - injection H1 as <-. rewrite Nat.add_0_r in H2.
    unfold bind at 1. simpl. unfold bind at 1. rewrite append_dscod_run.
    simpl. unfold bind at 1. rewrite call_run. simpl. now rewrite H2.
  - destruct (commitDelayedSiacoinOutputDiff tx (minerPayoutDiff pb i q)
                DiffApply) as [[e'|] tx'] eqn:E; [discriminate|].
    unfold bind at 1. simpl. unfold bind at 1. rewrite append_dscod_run.
    simpl. unfold bind at 1. rewrite call_run. simpl. rewrite E. simpl.
    rewrite (IH (S i) tx' _ tx1 p post e tx2).
    + now rewrite payoutDiffs_extend, extend_pb_extend.
    + now rewrite payoutDiffs_extend.
    + rewrite minerPayoutDiff_extend.
      now replace (S i + List.length pre)%nat
        with (i + S (List.length pre))%nat by lia.
Qed.

End Basics.

(** ** State relations kept by every step *)

Section Preservation.
Context {C : Collaborators}.
Variable R : St -> St -> Prop.
Hypothesis R_refl : forall s, R s s.
Hypothesis R_trans : forall s1 s2 s3, R s1 s2 -> R s2 s3 -> R s1 s3.

Lemma preserves_ret {A} (a : A) : preserves R (ret a).
Proof. intros s. apply R_refl. Qed.

Lemma preserves_fail {A} e : preserves R (@fail _ A e).
Proof. intros s. apply R_refl. Qed.

Lemma preserves_panic {A} e : preserves R (@panic _ A e).
Proof. intros s. apply R_refl. Qed.

Lemma preserves_get_tx : preserves R get_tx.
Proof. intros s. apply R_refl. Qed.

Lemma preserves_get_pb : preserves R get_pb.
Proof. intros s. apply R_refl. Qed.

Lemma preserves_bind {A B} (m : M A) (k : A -> M B) :
  preserves R m -> (forall a, preserves R (k a)) -> preserves R (bind m k).
Proof.
  intros Hm Hk s. unfold bind. specialize (Hm s).
  destruct (m s) as [[a|e|e] s1]; simpl in *; auto.
  eapply R_trans; [exact Hm|apply Hk].
Qed.

Lemma preserves_forEach {K V} (fn : K -> V -> M unit) :
  (forall k v, preserves R (fn k v)) ->
  forall entries, preserves R (forEach entries fn).
Proof.
  intros Hfn entries. induction entries as [|[k v] rest IH]; simpl.
  - apply preserves_ret.
  - apply preserves_bind; [apply Hfn|intros _; apply IH].
Qed.

End Preservation.

Section Relations.
Context {C : Collaborators}.







(** Each stage is built from steps that keep [R], so it keeps [R]: the
    steps are the three appends and the calls of the commit helpers and of
    [deleteDSCOBucket]. *)
Section Stagewise.
Variable R : St -> St -> Prop.
Hypothesis R_refl : forall s, R s s.
Hypothesis R_trans : forall s1 s2 s3, R s1 s2 -> R s2 s3 -> R s1 s3.
Hypothesis R_scod : forall d, preserves R (append_scod d).
Hypothesis R_dscod : forall d, preserves R (append_dscod d).
Hypothesis R_fcd : forall d, preserves R (append_fcd d).
Hypothesis R_commit_sco : forall d dir,
  preserves R (call (fun tx => commitSiacoinOutputDiff tx d dir)).
Hypothesis R_commit_dsco : forall d dir,
  preserves R (call (fun tx => commitDelayedSiacoinOutputDiff tx d dir)).
Hypothesis R_commit_fc : forall d dir,
  preserves R (call (fun tx => commitFileContractDiff tx d dir)).

Ltac keep :=
  repeat match goal with
  | |- preserves _ (bind _ _) =>
      apply (preserves_bind R R_trans); [|intro]
  | |- preserves _ (ret _) => apply (preserves_ret R R_refl)
  | |- preserves _ (fail _) => apply (preserves_fail R R_refl)
  | |- preserves _ (panic _) => apply (preserves_panic R R_refl)
  | |- preserves _ get_tx => apply (preserves_get_tx R R_refl)
  | |- preserves _ get_pb => apply (preserves_get_pb R R_refl)
  | |- preserves _ (append_scod _) => apply R_scod
  | |- preserves _ (append_dscod _) => apply R_dscod
  | |- preserves _ (append_fcd _) => apply R_fcd
  | |- preserves _ (call (fun tx => commitSiacoinOutputDiff tx _ _)) =>
      apply R_commit_sco
  | |- preserves _ (call (fun tx => commitDelayedSiacoinOutputDiff tx _ _)) =>
      apply R_commit_dsco
  | |- preserves _ (call (fun tx => commitFileContractDiff tx _ _)) =>
      apply R_commit_fc
  | |- preserves _ (if ?b then _ else _) => destruct b
  | |- preserves _ (match ?x with inl _ => _ | inr _ => _ end) => destruct x
  | |- preserves _ (match ?x with Some _ => _ | None => _ end) => destruct x
  end.

Lemma preserves_applyMinerPayouts_from xs :
  forall i, preserves R (applyMinerPayouts_from i xs).
Proof. induction xs as [|p xs IH]; intros i; simpl; keep. apply IH. Qed.

Lemma preserves_applyMinerPayouts : preserves R applyMinerPayouts.
Proof.
  unfold applyMinerPayouts. keep. apply preserves_applyMinerPayouts_from.
Qed.


Lemma preserves_missedProofOutputs_from fcid xs :
  forall i, preserves R (missedProofOutputs_from fcid i xs).
Proof. induction xs as [|p xs IH]; intros i; simpl; keep. apply IH. Qed.

Lemma preserves_applyTxMissedStorageProof fcid :
  preserves R (applyTxMissedStorageProof fcid).
Proof.
  unfold applyTxMissedStorageProof. keep.
  apply preserves_missedProofOutputs_from.
Qed.

Lemma preserves_applyFileContractMaintenance :
  preserves R applyFileContractMaintenance.
Proof.
  unfold applyFileContractMaintenance. keep.
  apply (preserves_forEach R R_refl R_trans). intros k v.
  apply preserves_applyTxMissedStorageProof.
Qed.

Hypothesis R_delete : forall h,
  preserves R (call (fun tx => deleteDSCOBucket tx h)).



End Stagewise.

End Relations.

Section Claims.
Context {C : Collaborators}.

Lemma forEach_app {K V} (fn : K -> V -> M unit) pre : forall post s s1,
  forEach pre fn s = (Returned tt, s1) ->
  forEach (pre ++ post) fn s = forEach post fn s1.
Proof.
  induction pre as [|[k v] pre IH]; intros post s s1 H; simpl in *.
  - unfold ret in H. now injection H as <-.
  - unfold bind in *. destruct (fn k v s) as [[[]|e|e] s0]; try discriminate.
    now apply IH.
Qed.

Lemma forEach_cons {K V} (fn : K -> V -> M unit) k v rest s :
  forEach ((k, v) :: rest) fn s =
  match fn k v s with
  | (Returned _, s') => forEach rest fn s'
  | (Failed e, s') => (Failed e, s')
  | (Panicked e, s') => (Panicked e, s')
  end.
Proof. reflexivity. Qed.

(** What one visit of [forEachDSCO] does, case by case. *)
Lemma maturedVisit_run id sco s :
  maturedVisit id sco s =
  if DEBUG && isSiacoinOutput (st_tx s) id
  then (Panicked errOutputAlreadyMature, s)
  else
    let pb1 := extend_pb (st_pb s) [maturedDiff id sco] [] [] in
    match commitSiacoinOutputDiff (st_tx s) (maturedDiff id sco) DiffApply with
    | (Some e, tx1) => (Failed e, {| st_tx := tx1; st_pb := pb1 |})
    | (None, tx1) =>
        let d := consumedDiff (st_pb s) id sco in
        call (fun tx => commitDelayedSiacoinOutputDiff tx d DiffApply)
          {| st_tx := tx1;
             st_pb := extend_pb (st_pb s) [maturedDiff id sco] [d] [] |}
    end.
Proof.
  unfold maturedVisit. unfold bind at 1. simpl.
  destruct (DEBUG && isSiacoinOutput (st_tx s) id); [reflexivity|].
  unfold bind at 1. rewrite append_scod_run. simpl.
  unfold bind at 1. rewrite call_run. simpl.
  destruct (commitSiacoinOutputDiff (st_tx s) (maturedDiff id sco) DiffApply)
    as [[e|] tx1]; simpl; [reflexivity|].
  unfold bind at 1. simpl. unfold bind at 1. rewrite append_dscod_run. simpl.
  now rewrite extend_pb_extend.
Qed.


(** The diffs a walk over [entries] leaves, whatever its outcome: the
    entries visited to the end have both their diffs, and the entry on which
    the walk stopped has at most its Apply diff. *)
Lemma forEach_maturedVisit_diffs entries : forall s,
  exists done rest,
    entries = done ++ rest /\
    (st_pb (snd (forEach entries maturedVisit s)) =
       extend_pb (st_pb s) (maturedDiffs done)
         (consumedDiffs (st_pb s) done) [] \/
     exists e rest',
       rest = e :: rest' /\
       fst (forEach entries maturedVisit s) <> Returned tt /\
       st_pb (snd (forEach entries maturedVisit s)) =
         extend_pb (st_pb s) (maturedDiffs (done ++ [e]))
           (consumedDiffs (st_pb s) done) []) /\
    (fst (forEach entries maturedVisit s) = Returned tt -> rest = []).
Proof.
  induction entries as [|[id sco] entries IH]; intros s.
  - exists [], []. simpl. rewrite extend_pb_nil. auto.
  - rewrite forEach_cons, maturedVisit_run.
    destruct (DEBUG && isSiacoinOutput (st_tx s) id).
    { exists [], ((id, sco) :: entries). simpl. rewrite extend_pb_nil.
      split; [reflexivity|]. split; [now left|discriminate]. }
    cbv zeta.
    destruct (commitSiacoinOutputDiff (st_tx s) (maturedDiff id sco) DiffApply)
      as [[e|] tx1].
    { exists [], ((id, sco) :: entries). simpl.
      split; [reflexivity|]. split; [|discriminate].
      right. exists (id, sco), entries. repeat split. discriminate. }
    rewrite call_run. simpl.
    destruct (commitDelayedSiacoinOutputDiff tx1
                (consumedDiff (st_pb s) id sco) DiffApply) as [[e|] tx2]; simpl.
    { exists [(id, sco)], entries. simpl.
      split; [reflexivity|]. split; [now left|discriminate]. }
    destruct (IH {| st_tx := tx2;
                    st_pb := extend_pb (st_pb s) [maturedDiff id sco]
                               [consumedDiff (st_pb s) id sco] [] |})
      as (done & rest & -> & Hpb & Hret).
    exists ((id, sco) :: done), rest. simpl in *.
    split; [reflexivity|]. split; [|exact Hret].
    destruct Hpb as [Hpb | (e & rest' & -> & Hne & Hpb)].
    + left. rewrite Hpb. now rewrite extend_pb_extend.
    + right. exists e, rest'. repeat split; [exact Hne|].
      rewrite Hpb. now rewrite extend_pb_extend.
Qed.

(** C1. [applyMaintenance] runs miner-payout promotion, then maturation
    promotion on the state the first stage left, then contract-expiry
    settlement on the state the second stage left; when a stage does not
    return normally its error is the result and the state is the one that
    stage left: no later stage has run and nothing is cleaned up. *)
Theorem applyMaintenance_stages_in_order (s : St) :
  applyMaintenance s =
  match applyMinerPayouts s with
  | (Returned _, s1) =>
      match applyMaturedSiacoinOutputs s1 with
      | (Returned _, s2) => applyFileContractMaintenance s2
      | (Failed e, s2) => (Failed e, s2)
      | (Panicked e, s2) => (Panicked e, s2)
      end
  | (Failed e, s1) => (Failed e, s1)
  | (Panicked e, s1) => (Panicked e, s1)
  end.
Proof.
  unfold applyMaintenance, bind.
  destruct (applyMinerPayouts s) as [[u|e|e] s1]; reflexivity.
Qed.

(** C5. At a height that does not exceed [MaturityDelay], maturation
    promotion returns without an error and leaves the store and the
    processed block as they were. *)
Theorem applyMaturedSiacoinOutputs_too_young (s : St) :
  Height (st_pb s) <= MaturityDelay ->
  applyMaturedSiacoinOutputs s = (Returned tt, s).
Proof.
  intros H. unfold applyMaturedSiacoinOutputs, bind. simpl.
  destruct (Z.gtb_spec (Height (st_pb s)) MaturityDelay) as [Hgt|_].
  - lia.
  - reflexivity.
Qed.

Lemma applyMaturedSiacoinOutputs_old_enough (s : St) :
  MaturityDelay < Height (st_pb s) ->
  applyMaturedSiacoinOutputs s =
  (forEach (dscoBucket (st_tx s) (Height (st_pb s))) maturedVisit ;;
   call (fun tx => deleteDSCOBucket tx (Height (st_pb s)))) s.
Proof.
  intros H. unfold applyMaturedSiacoinOutputs, forEachDSCO.
  unfold bind at 1. simpl.
  destruct (Z.gtb_spec (Height (st_pb s)) MaturityDelay) as [_|Hle];
    [|lia].
  simpl. unfold bind at 1 2. simpl. reflexivity.
Qed.

(** C2. Above [MaturityDelay], whatever the outcome of maturation
    promotion, the entries at the current height split into those visited
    to the end and the rest.  Every entry visited to the end has exactly two
    diffs: in the spendable-output sequence a diff of direction Apply with
    the identity and the output of the entry, and in the delayed-output
    sequence a diff of direction Revert with the same identity and output
    and the height of the block as maturity height; the diffs stand in the
    order of the walk and no contract diff is added.  An entry can have its
    Apply diff without its Revert diff (only the one on which the stage
    stopped), never the other way round; and when the stage returns
    normally every entry was visited to the end. *)
Theorem matured_entry_apply_then_revert (s : St) :
  MaturityDelay < Height (st_pb s) ->
  let applied :=
    map (fun x : SiacoinOutputID * SiacoinOutput =>
           {| scod_Direction := DiffApply;
              scod_ID := fst x;
              scod_SiacoinOutput := snd x |}) in
  let reverted :=
    map (fun x : SiacoinOutputID * SiacoinOutput =>
           {| dscod_Direction := DiffRevert;
              dscod_ID := fst x;
              dscod_SiacoinOutput := snd x;
              dscod_MaturityHeight := Height (st_pb s) |}) in
  exists done rest,
    dscoBucket (st_tx s) (Height (st_pb s)) = done ++ rest /\
    (st_pb (snd (applyMaturedSiacoinOutputs s)) =
       extend_pb (st_pb s) (applied done) (reverted done) [] \/
     exists e rest',
       rest = e :: rest' /\
       fst (applyMaturedSiacoinOutputs s) <> Returned tt /\
       st_pb (snd (applyMaturedSiacoinOutputs s)) =
         extend_pb (st_pb s) (applied (done ++ [e])) (reverted done) []) /\
    (fst (applyMaturedSiacoinOutputs s) = Returned tt -> rest = []).
Proof.
  intros H applied reverted.
  change applied with maturedDiffs.
  change reverted with (consumedDiffs (st_pb s)).
  clear applied reverted.
  rewrite (applyMaturedSiacoinOutputs_old_enough s H).
  destruct (forEach_maturedVisit_diffs
              (dscoBucket (st_tx s) (Height (st_pb s))) s)
    as (done & rest & Hsplit & Hpb & Hret).
  exists done, rest. split; [exact Hsplit|].
  unfold bind.
  destruct (forEach (dscoBucket (st_tx s) (Height (st_pb s))) maturedVisit s)
    as [[[]|e|e] s1]; simpl in *.
  - rewrite call_run. simpl. split; [|intros _; now apply Hret].
    left. destruct Hpb as [Hpb|(e & rest' & _ & Hne & _)]; [exact Hpb|].
    now elim Hne.
  - split; [|discriminate]. exact Hpb.
  - split; [|discriminate]. exact Hpb.
Qed.

(** ** Miner payouts *)

Lemma nth_error_payoutDiffs pb xs : forall j i,
  nth_error (payoutDiffs pb j xs) i =
  option_map (minerPayoutDiff pb (j + i)) (nth_error xs i).
Proof.
  induction xs as [|p xs IH]; intros j i.
  - now destruct i.
  - destruct i as [|i]; simpl.
    + now rewrite Nat.add_0_r.
    + rewrite IH. now rewrite Nat.add_succ_r.
Qed.

Lemma height_add_small a b :
  0 <= a -> 0 <= b -> a + b < 2 ^ 64 -> height_add a b = a + b.
Proof.
  intros Ha Hb Hlt. unfold height_add, uint64_wrap.
  apply Z.mod_small. lia.
Qed.

(** C4. Miner-payout promotion handles the payouts of the block in list
    order.  The payout at index [i] gets a delayed diff of direction Apply
    whose identity is derived from the block and [i], whose output is the
    payout and whose maturity height is the height of the block plus
    [MaturityDelay] (the 64-bit sum of the code, which is the plain sum
    whenever that fits).  Each diff is appended to the delayed-output
    sequence and committed to the ledger, one payout after the other.  When
    every commit is accepted the stage returns normally with all the diffs
    appended; when the commit of some payout is refused the stage returns
    that error at once, having appended and committed nothing for the
    payouts after it. *)
Theorem applyMinerPayouts_in_list_order (tx : Tx) (pb : processedBlock) :
  let payouts := MinerPayouts (Block pb) in
  let s := {| st_tx := tx; st_pb := pb |} in
  (forall i p, nth_error payouts i = Some p ->
     nth_error (payoutDiffs pb 0 payouts) i =
     Some {| dscod_Direction := DiffApply;
             dscod_ID := MinerPayoutID (Block pb) (Z.of_nat i);
             dscod_SiacoinOutput := p;
             dscod_MaturityHeight := height_add (Height pb) MaturityDelay |}) /\
  (0 <= Height pb -> 0 <= MaturityDelay ->
   Height pb + MaturityDelay < 2 ^ 64 ->
   height_add (Height pb) MaturityDelay = Height pb + MaturityDelay) /\
  (forall tx',
     commitDelayedAll (payoutDiffs pb 0 payouts) tx = (None, tx') ->
     applyMinerPayouts s =
     (Returned tt,
      {| st_tx := tx';
         st_pb := extend_pb pb [] (payoutDiffs pb 0 payouts) [] |})) /\
  (forall pre p post tx1 e tx2,
     payouts = pre ++ p :: post ->
     commitDelayedAll (payoutDiffs pb 0 pre) tx = (None, tx1) ->
     commitDelayedSiacoinOutputDiff tx1
       (minerPayoutDiff pb (List.length pre) p) DiffApply = (Some e, tx2) ->
     applyMinerPayouts s =
     (Failed e,
      {| st_tx := tx2;
         st_pb := extend_pb pb [] (payoutDiffs pb 0 (pre ++ [p])) [] |})).
Proof.
  intros payouts s. repeat split.
  - intros i p H. rewrite nth_error_payoutDiffs, H. reflexivity.
  - apply height_add_small.
  - intros tx' H. unfold applyMinerPayouts, bind. simpl.
    now apply applyMinerPayouts_from_ok.
  - intros pre p post tx1 e tx2 Hsplit H1 H2.
    unfold applyMinerPayouts, bind. simpl. fold payouts. rewrite Hsplit.
    now apply applyMinerPayouts_from_fail with (tx1 := tx1).
Qed.

(** ** Maturation: what reaches the store *)

(** What a visit does with the Revert diff.  Appending it to the
    delayed-output sequence leaves the store as it is.  When the sanity
    check passes and the spendable-output commit is accepted, the visit
    then passes the diff to [commitDelayedSiacoinOutputDiff] in direction
    Apply, and the outcome and the store of the visit are the ones that call
    leaves.  After a walk that returned normally the stage calls
    [deleteDSCOBucket] at the current height. *)
Lemma maturedVisit_commits_revert_diff (s : St) (id : SiacoinOutputID)
    (sco : SiacoinOutput) (tx1 : Tx) :
  DEBUG && isSiacoinOutput (st_tx s) id = false ->
  commitSiacoinOutputDiff (st_tx s) (maturedDiff id sco) DiffApply
    = (None, tx1) ->
  let d := consumedDiff (st_pb s) id sco in
  let committed := commitDelayedSiacoinOutputDiff tx1 d DiffApply in
  (forall s0, st_tx (snd (append_dscod d s0)) = st_tx s0) /\
  maturedVisit id sco s =
    (match fst committed with None => Returned tt | Some e => Failed e end,
     {| st_tx := snd committed;
        st_pb := extend_pb (st_pb s) [maturedDiff id sco] [d] [] |}) /\
  (forall s0 s1,
     MaturityDelay < Height (st_pb s0) ->
     forEachDSCO (Height (st_pb s0)) maturedVisit s0 = (Returned tt, s1) ->
     applyMaturedSiacoinOutputs s0 =
     call (fun tx => deleteDSCOBucket tx (Height (st_pb s0))) s1).
Proof.
  intros Hcheck Hsco d committed. repeat split.
  - rewrite maturedVisit_run, Hcheck. cbv zeta. rewrite Hsco.
    now rewrite call_run.
  - intros s0 s1 Hh Hwalk.
    rewrite (applyMaturedSiacoinOutputs_old_enough s0 Hh).
    unfold forEachDSCO, bind in Hwalk. simpl in Hwalk.
    unfold bind. now rewrite Hwalk.
Qed.

(** ** Contract expiry *)

Lemma applyFileContractMaintenance_run s :
  applyFileContractMaintenance s =
  match Bucket (st_tx s) (fceBucketID (st_pb s)) with
  | None => (Returned tt, s)
  | Some entries => forEach entries fceVisit s
  end.
Proof.
  unfold applyFileContractMaintenance, bind. simpl.
  now destruct (Bucket (st_tx s) (fceBucketID (st_pb s))).
Qed.

Lemma applyTxMissedStorageProof_missing fcid s e :
  getFileContract (st_tx s) fcid = inl e ->
  applyTxMissedStorageProof fcid s = (Failed e, s).
Proof.
  intros H. unfold applyTxMissedStorageProof, bind. simpl. now rewrite H.
Qed.

(** C6. When the contract of an identity of the expiry bucket cannot be
    fetched, contract-expiry settlement returns the error of the fetch: the
    contracts before it in the bucket have been settled, the contract itself
    is not skipped, and the state is the one in which the fetch failed, so
    no later contract is settled.  [applyMaintenance] returns the same
    error. *)
Theorem missing_contract_error_returned (s s1 : St)
    (pre post : list (list byte * list byte)) (k v : list byte) (e : error) :
  Bucket (st_tx s) (fceBucketID (st_pb s)) = Some (pre ++ (k, v) :: post) ->
  forEach pre fceVisit s = (Returned tt, s1) ->
  getFileContract (st_tx s1) (copy zeroHash k) = inl e ->
  applyFileContractMaintenance s = (Failed e, s1) /\
  (forall s0 sa,
     applyMinerPayouts s0 = (Returned tt, sa) ->
     applyMaturedSiacoinOutputs sa = (Returned tt, s) ->
     applyMaintenance s0 = (Failed e, s1)).
Proof.
  intros Hb Hpre Hget.
  assert (Hfcm : applyFileContractMaintenance s = (Failed e, s1)).
  { rewrite applyFileContractMaintenance_run, Hb.
    rewrite (forEach_app fceVisit pre _ s s1 Hpre), forEach_cons.
    unfold fceVisit.
    now rewrite (applyTxMissedStorageProof_missing _ _ e Hget). }
  split; [exact Hfcm|].
  intros s0 sa H1 H2. unfold applyMaintenance, bind.
  now rewrite H1, H2.
Qed.

Lemma never_panics_bind {A B} e (m : M A) (k : A -> M B) :
  never_panics_with e m -> (forall a, never_panics_with e (k a)) ->
  never_panics_with e (bind m k).
Proof.
  intros Hm Hk s. unfold bind. specialize (Hm s).
  destruct (m s) as [[a|e'|e'] s1]; simpl in *.
  - apply Hk.
  - discriminate.
  - intros H. apply Hm. now injection H as ->.
Qed.

Lemma never_panics_call e f : never_panics_with e (call f).
Proof.
  intros s. rewrite call_run. simpl.
  destruct (fst (f (st_tx s))); discriminate.
Qed.

Lemma never_panics_update_pb e f : never_panics_with e (update_pb f).
Proof. intros s. discriminate. Qed.

Lemma missedProofOutputs_from_no_timing_panic fcid xs : forall i,
  never_panics_with errStorageProofTiming (missedProofOutputs_from fcid i xs).
Proof.
  induction xs as [|mpo xs IH]; intros i; simpl.
  - intros s. discriminate.
  - apply never_panics_bind; [intros s; discriminate|intros tx].
    apply never_panics_bind.
    { destruct DEBUG; [destruct (isSiacoinOutput tx _)|];
        intros s; discriminate. }
    intros _. apply never_panics_bind; [intros s; discriminate|intros pb].
    apply never_panics_bind; [apply never_panics_update_pb|intros _].
    apply never_panics_bind; [apply never_panics_call|intros _]. apply IH.
Qed.

Lemma applyTxMissedStorageProof_wrong_height fcid fc s :
  DEBUG = true ->
  getFileContract (st_tx s) fcid = inr fc ->
  WindowEnd fc <> Height (st_pb s) ->
  applyTxMissedStorageProof fcid s = (Panicked errStorageProofTiming, s).
Proof.
  intros Hd Hget Hne. unfold applyTxMissedStorageProof.
  unfold bind at 1. simpl. rewrite Hget.
  unfold bind at 1. simpl. unfold bind at 1. rewrite Hd.
  destruct (Z.eqb_spec (WindowEnd fc) (Height (st_pb s))) as [Heq|_];
    [contradiction|reflexivity].
Qed.

Lemma applyTxMissedStorageProof_right_height fcid s :
  (forall fc, getFileContract (st_tx s) fcid = inr fc ->
              WindowEnd fc = Height (st_pb s)) ->
  fst (applyTxMissedStorageProof fcid s) <> Panicked errStorageProofTiming.
Proof.
  intros Hok. unfold applyTxMissedStorageProof.
  unfold bind at 1. simpl.
  destruct (getFileContract (st_tx s) fcid) as [e|fc] eqn:Hget;
    [discriminate|].
  specialize (Hok fc eq_refl).
  unfold bind at 1. simpl. unfold bind at 1.
  assert (Hcheck :
    (if DEBUG
     then if negb (WindowEnd fc =? Height (st_pb s))
          then panic errStorageProofTiming else ret tt
     else ret tt) s = (Returned tt, s)).
  { rewrite Hok, Z.eqb_refl. now destruct DEBUG. }
  rewrite Hcheck.
  apply never_panics_bind;
    [apply missedProofOutputs_from_no_timing_panic|intros _].
  apply never_panics_bind; [apply never_panics_update_pb|intros _].
  apply never_panics_call.
Qed.

Lemma forEach_fceVisit_no_timing_panic entries : forall s,
  fetched_expire_now entries s ->
  fst (forEach entries fceVisit s) <> Panicked errStorageProofTiming.
Proof.
  induction entries as [|[k v] rest IH]; intros s H.
  - discriminate.
  - destruct H as [Hfetch Hrest]. rewrite forEach_cons.
    pose proof (applyTxMissedStorageProof_right_height _ s Hfetch) as Hv.
    specialize (Hrest (snd (fceVisit k v s))).
    unfold fceVisit in *.
    destruct (applyTxMissedStorageProof (copy zeroHash k) s)
      as [[[]|e|e] s'] eqn:E; simpl in *.
    + apply IH. now apply Hrest.
    + discriminate.
    + exact Hv.
Qed.

(** C7. In a debug build, settling a contract whose window end is not the
    height of the block panics with the timing error on the spot: nothing
    is appended or committed for the contract, no error is returned, and
    contract-expiry settlement, and [applyMaintenance] with it, ends in
    that panic with the contracts after it untouched.  When every contract fetched during the settlement has
    its window end at the height of the block, the settlement never ends in
    that panic. *)
Theorem wrong_window_end_is_fatal (s : St) :
  (forall pre k v post s1 fc,
     DEBUG = true ->
     Bucket (st_tx s) (fceBucketID (st_pb s)) = Some (pre ++ (k, v) :: post) ->
     forEach pre fceVisit s = (Returned tt, s1) ->
     getFileContract (st_tx s1) (copy zeroHash k) = inr fc ->
     WindowEnd fc <> Height (st_pb s1) ->
     applyTxMissedStorageProof (copy zeroHash k) s1 =
       (Panicked errStorageProofTiming, s1) /\
     applyFileContractMaintenance s = (Panicked errStorageProofTiming, s1) /\
     (forall s0 sa,
        applyMinerPayouts s0 = (Returned tt, sa) ->
        applyMaturedSiacoinOutputs sa = (Returned tt, s) ->
        applyMaintenance s0 = (Panicked errStorageProofTiming, s1))) /\
  (forall entries,
     Bucket (st_tx s) (fceBucketID (st_pb s)) = Some entries ->
     fetched_expire_now entries s ->
     fst (applyFileContractMaintenance s) <> Panicked errStorageProofTiming).
Proof.
  split.
  - intros pre k v post s1 fc Hd Hb Hpre Hget Hne.
    pose proof (applyTxMissedStorageProof_wrong_height _ fc s1 Hd Hget Hne)
      as Hpanic.
    assert (Hfcm : applyFileContractMaintenance s =
                   (Panicked errStorageProofTiming, s1)).
    { rewrite applyFileContractMaintenance_run, Hb.
      rewrite (forEach_app fceVisit pre _ s s1 Hpre), forEach_cons.
      unfold fceVisit. now rewrite Hpanic. }
    split; [exact Hpanic|]. split; [exact Hfcm|].
    intros s0 sa H1 H2. unfold applyMaintenance, bind.
    now rewrite H1, H2.
  - intros entries Hb Hok.
    rewrite applyFileContractMaintenance_run, Hb.
    now apply forEach_fceVisit_no_timing_panic.
Qed.

(** ** The settlement of a fetched contract *)

Lemma applyTxMissedStorageProof_settle fcid fc s :
  getFileContract (st_tx s) fcid = inr fc ->
  (DEBUG = true -> WindowEnd fc = Height (st_pb s)) ->
  applyTxMissedStorageProof fcid s =
  (missedProofOutputs_from fcid 0 (MissedProofOutputs fc) ;;
   append_fcd (expiredDiff fcid fc) ;;
   call (fun tx => commitFileContractDiff tx (expiredDiff fcid fc) DiffApply))
    s.
Proof.
  intros Hget Hok. unfold applyTxMissedStorageProof.
  unfold bind at 1. simpl. rewrite Hget.
  unfold bind at 1. simpl. unfold bind at 1.
  assert (Hcheck :
    (if DEBUG
     then if negb (WindowEnd fc =? Height (st_pb s))
          then panic errStorageProofTiming else ret tt
     else ret tt) s = (Returned tt, s)).
  { destruct DEBUG; [|reflexivity].
    now rewrite (Hok eq_refl), Z.eqb_refl. }
  now rewrite Hcheck.
Qed.

End Claims.

(** ** The in-memory store: runs on sample blocks *)




(** At height 3 with a delay of 5 the delayed output indexed at height 3
    stays where it is. *)
Lemma applyMaturedSiacoinOutputs_too_young_witness :
  Height (st_pb (mem_st 5 true (txYoung 9) blkNone 3)) <= 5 /\
  applyMaturedSiacoinOutputs (mem_st 5 true (txYoung 9) blkNone 3)
  = (Returned tt, mem_st 5 true (txYoung 9) blkNone 3).
Proof.
  split.
  - simpl. lia.
  - apply (@applyMaturedSiacoinOutputs_too_young (memStore 5 true)).
    simpl. lia.
Defined.

(** At height 15 the two delayed outputs indexed there mature: each gets
    its Apply diff and its Revert diff at height 15. *)
Lemma matured_entry_apply_then_revert_witness :
  let s := mem_st 5 true (txMaturing 9) blkNone 15 in
  fst (applyMaturedSiacoinOutputs s) = Returned tt /\
  SiacoinOutputDiffs (st_pb (snd (applyMaturedSiacoinOutputs s))) =
    [{| scod_Direction := DiffApply; scod_ID := idA;
        scod_SiacoinOutput := V1 |};
     {| scod_Direction := DiffApply; scod_ID := idB;
        scod_SiacoinOutput := V2 |}] /\
  DelayedSiacoinOutputDiffs (st_pb (snd (applyMaturedSiacoinOutputs s))) =
    [{| dscod_Direction := DiffRevert; dscod_ID := idA;
        dscod_SiacoinOutput := V1; dscod_MaturityHeight := 15 |};
     {| dscod_Direction := DiffRevert; dscod_ID := idB;
        dscod_SiacoinOutput := V2; dscod_MaturityHeight := 15 |}] /\
  FileContractDiffs (st_pb (snd (applyMaturedSiacoinOutputs s))) = [].
Proof.
  intros s.
  assert (Hret : fst (applyMaturedSiacoinOutputs s) = Returned tt)
    by reflexivity.
  split; [exact Hret|].
  assert (H15 : @MaturityDelay (memStore 5 true) < Height (st_pb s))
    by (simpl; lia).
  destruct (@matured_entry_apply_then_revert (memStore 5 true) s H15)
    as (done & rest & Hsplit & Hpb & Hall).
  specialize (Hall Hret). subst rest. rewrite app_nil_r in Hsplit.
  destruct Hpb as [Hpb|(e & rest' & Hcons & _)]; [|discriminate Hcons].
  rewrite Hpb, <- Hsplit. repeat split.
Defined.

(** Three payouts at height 10: a store that accepts every write, and a
    store that accepts one write only, so that the commit of the second
    payout fails and the third payout is never reached. *)
Lemma applyMinerPayouts_in_list_order_witness :
  let pb := mem_pb 5 true blkThree 10 in
  map fst (mem_dscoBucket
             (st_tx (snd (applyMinerPayouts (mem_state 5 true (emptyTx 9) pb))))
             15)
    = [[xaa] ++ le_bytes 8 0; [xaa] ++ le_bytes 8 1; [xaa] ++ le_bytes 8 2] /\
  applyMinerPayouts (mem_state 5 true (emptyTx 9) pb) =
    (Returned tt,
     mem_state 5 true (snd (@commitDelayedAll (memStore 5 true) (payoutDiffs pb 0 [V1; V2; V1])
                        (emptyTx 9)))
       (extend_pb pb [] (payoutDiffs pb 0 [V1; V2; V1]) [])) /\
  applyMinerPayouts (mem_state 5 true (emptyTx 1) pb) =
    (Failed errWrite,
     mem_state 5 true
       (snd (@commitDelayedAll (memStore 5 true) (payoutDiffs pb 0 [V1]) (emptyTx 1)))
       (extend_pb pb [] (payoutDiffs pb 0 [V1; V2]) [])).
Proof.
  intros pb. split; [reflexivity|]. split.
  - apply (proj1 (proj2 (proj2
      (@applyMinerPayouts_in_list_order (memStore 5 true) (emptyTx 9) pb)))).
    reflexivity.
  - apply (proj2 (proj2 (proj2
      (@applyMinerPayouts_in_list_order (memStore 5 true) (emptyTx 1) pb)))
      [V1] V2 [V1]
      (snd (@commitDelayedAll (memStore 5 true) (payoutDiffs pb 0 [V1]) (emptyTx 1)))
      errWrite
      (snd (@commitDelayedAll (memStore 5 true) (payoutDiffs pb 0 [V1]) (emptyTx 1))));
      reflexivity.
Defined.

(** The first contract indexed at height 20 is settled, the second is
    missing, the third is never reached. *)
Lemma missing_contract_error_returned_witness :
  let s := mem_st 5 true (txMissing 9) blkNone 20 in
  let s1 := snd (forEach [(fcidC, [])] fceVisit s) in
  forEach [(fcidC, [])] fceVisit s = (Returned tt, s1) /\
  FileContractDiffs (st_pb s1) = [expiredDiff fcidC fcNow] /\
  applyFileContractMaintenance s = (Failed errMissingFileContract, s1) /\
  applyMaintenance s = (Failed errMissingFileContract, s1).
Proof.
  intros s s1.
  destruct (@missing_contract_error_returned (memStore 5 true) s s1
              [(fcidC, [])] [(fcidE, [])] fcidD [] errMissingFileContract
              eq_refl eq_refl eq_refl) as [Hfcm Hmaint].
  split; [reflexivity|]. split; [reflexivity|]. split.
  - exact Hfcm.
  - apply (Hmaint s s); reflexivity.
Defined.

(** A contract indexed at height 20 whose window ends at 21 stops the
    settlement with a panic; a settlement whose only contract ends its
    window at 20 does not. *)
Lemma wrong_window_end_is_fatal_witness :
  let s := mem_st 5 true (txMistimed 9) blkNone 20 in
  let s1 := snd (forEach [(fcidC, [])] fceVisit s) in
  applyFileContractMaintenance s = (Panicked errStorageProofTiming, s1) /\
  fst (applyFileContractMaintenance (mem_st 5 true (txExpiring 9) blkNone 20))
    <> Panicked errStorageProofTiming.
Proof.
  intros s s1. split.
  - apply (proj1 (proj2 (proj1 (@wrong_window_end_is_fatal (memStore 5 true) s)
             [(fcidC, [])] fcidD [] [] s1 fcLate eq_refl eq_refl eq_refl
             eq_refl ltac:(simpl; lia)))).
  - apply (proj2 (@wrong_window_end_is_fatal (memStore 5 true)
                    (mem_st 5 true (txExpiring 9) blkNone 20))
             [(fcidC, [])]); [reflexivity|].
    split; [|intros; exact I].
    intros fc H. vm_compute in H. injection H as <-. reflexivity.
Defined.

(** ** The scenarios of the specification, run on the in-memory store *)

(** Scenario A: height 10, one payout, a delay of 5. *)
Example scenario_A :
  let '(r, s) := applyMaintenance (mem_st 5 true (emptyTx 9) blkOne 10) in
  r = Returned tt /\
  mem_dscos (st_tx s) = [(15, [([xa0] ++ le_bytes 8 0, V1)])] /\
  mem_scos (st_tx s) = [] /\
  SiacoinOutputDiffs (st_pb s) = [] /\
  DelayedSiacoinOutputDiffs (st_pb s) =
    [{| dscod_Direction := DiffApply; dscod_ID := [xa0] ++ le_bytes 8 0;
        dscod_SiacoinOutput := V1; dscod_MaturityHeight := 15 |}] /\
  FileContractDiffs (st_pb s) = [].
Proof. vm_compute. repeat split. Qed.

(** Scenario B: the block at height 15 that follows, without payouts. *)
Example scenario_B :
  let sA := snd (applyMaintenance (mem_st 5 true (emptyTx 9) blkOne 10)) in
  let '(r, s) := applyMaintenance (mem_st 5 true (st_tx sA) blkNone 15) in
  r = Returned tt /\
  mem_dscoBucket (st_tx s) 15 = [] /\
  mem_scos (st_tx s) = [([xa0] ++ le_bytes 8 0, V1)] /\
  SiacoinOutputDiffs (st_pb s) =
    [{| scod_Direction := DiffApply; scod_ID := [xa0] ++ le_bytes 8 0;
        scod_SiacoinOutput := V1 |}] /\
  DelayedSiacoinOutputDiffs (st_pb s) =
    [{| dscod_Direction := DiffRevert; dscod_ID := [xa0] ++ le_bytes 8 0;
        dscod_SiacoinOutput := V1; dscod_MaturityHeight := 15 |}].
Proof. vm_compute. repeat split. Qed.

(** Scenario C: a contract whose window ends at height 20, with two
    missed-proof outputs. *)
Example scenario_C :
  let '(r, s) := applyMaintenance (mem_st 5 true (txExpiring 9) blkNone 20) in
  r = Returned tt /\
  mem_fcs (st_tx s) = [] /\
  map snd (mem_dscoBucket (st_tx s) 25) = [V1; V2] /\
  mem_scos (st_tx s) = [] /\
  map dscod_MaturityHeight (DelayedSiacoinOutputDiffs (st_pb s)) = [25; 25] /\
  FileContractDiffs (st_pb s) = [expiredDiff fcidC fcNow].
Proof. vm_compute. repeat split. Qed.

(** Scenario D: a contract indexed at height 20 that is not in the
    contract ledger. *)
Example scenario_D :
  fst (applyMaintenance
         (mem_st 5 true
            {| mem_scos := []; mem_dscos := []; mem_fcs := [];
               mem_buckets := [(fcex20, [(fcidC, [])])]; mem_writes := 9 |}
            blkNone 20))
  = Failed errMissingFileContract.
Proof. reflexivity. Qed.

(** * Further properties of the maintenance code *)

Section Further.
Context {C : Collaborators}.

Lemma bind_run {A B} (m : M A) (k : A -> M B) s :
  bind m k s =
  match m s with
  | (Returned a, s') => k a s'
  | (Failed e, s') => (Failed e, s')
  | (Panicked e, s') => (Panicked e, s')
  end.
Proof. reflexivity. Qed.

(** ** Miner payouts, in every outcome *)

Lemma applyMinerPayouts_from_total xs : forall i tx pb,
  applyMinerPayouts_from i xs {| st_tx := tx; st_pb := pb |} =
  (returned_or (fst (commitDelayedAll (payoutDiffs pb i xs) tx)),
   {| st_tx := snd (commitDelayedAll (payoutDiffs pb i xs) tx);
      st_pb := extend_pb pb []
                 (firstn (commitDelayedTried (payoutDiffs pb i xs) tx)
                    (payoutDiffs pb i xs)) [] |}).
Proof.
  induction xs as [|p xs IH]; intros i tx pb; simpl.
  - now rewrite extend_pb_nil.
  - unfold bind at 1. simpl. unfold bind at 1. rewrite append_dscod_run.
    simpl. unfold bind at 1. rewrite call_run. simpl.
    destruct (commitDelayedSiacoinOutputDiff tx (minerPayoutDiff pb i p)
                DiffApply) as [[e|] tx1]; simpl; [reflexivity|].
    rewrite IH, payoutDiffs_extend, extend_pb_extend. reflexivity.
Qed.

Lemma commitDelayedTried_le ds : forall tx,
  (commitDelayedTried ds tx <= List.length ds)%nat.
Proof.
  induction ds as [|d ds IH]; intros tx; simpl; [lia|].
  destruct (commitDelayedSiacoinOutputDiff tx d DiffApply) as [[e|] tx1].
  - lia.
  - specialize (IH tx1). lia.
Qed.

Lemma commitDelayedTried_all ds : forall tx,
  fst (commitDelayedAll ds tx) = None ->
  commitDelayedTried ds tx = List.length ds.
Proof.
  induction ds as [|d ds IH]; intros tx H; simpl in *; [reflexivity|].
  destruct (commitDelayedSiacoinOutputDiff tx d DiffApply) as [[e|] tx1].
  - discriminate.
  - now rewrite IH.
Qed.

(** X1. Miner-payout promotion never panics.  It returns an error exactly
    when the store refuses the commit of a payout diff, and then that error;
    the store it leaves is the one left by committing the payout diffs in
    list order up to the first refusal; and the delayed-output sequence
    gains exactly the diffs whose commit was tried (all of them on a normal
    return), while the two other sequences, the block and the height stay
    as they were. *)
Theorem applyMinerPayouts_in_every_outcome (s : St) :
  let ds := payoutDiffs (st_pb s) 0 (MinerPayouts (Block (st_pb s))) in
  let tried := commitDelayedTried ds (st_tx s) in
  applyMinerPayouts s =
    (returned_or (fst (commitDelayedAll ds (st_tx s))),
     {| st_tx := snd (commitDelayedAll ds (st_tx s));
        st_pb := extend_pb (st_pb s) [] (firstn tried ds) [] |}) /\
  (tried <= List.length ds)%nat /\
  (fst (applyMinerPayouts s) = Returned tt <-> tried = List.length ds /\
     fst (commitDelayedAll ds (st_tx s)) = None) /\
  (forall e, fst (applyMinerPayouts s) <> Panicked e).
Proof.
  intros ds tried.
  assert (Hrun : applyMinerPayouts s =
    (returned_or (fst (commitDelayedAll ds (st_tx s))),
     {| st_tx := snd (commitDelayedAll ds (st_tx s));
        st_pb := extend_pb (st_pb s) [] (firstn tried ds) [] |})).
  { unfold applyMinerPayouts, bind. simpl. destruct s as [tx pb].
    apply applyMinerPayouts_from_total. }
  split; [exact Hrun|]. split; [apply commitDelayedTried_le|].
  rewrite Hrun. simpl. split.
  - split.
    + intros H. destruct (fst (commitDelayedAll ds (st_tx s))) eqn:E;
        [discriminate|].
      split; [now apply commitDelayedTried_all|reflexivity].
    + intros [_ ->]. reflexivity.
  - intros e. destruct (fst (commitDelayedAll ds (st_tx s))); discriminate.
Qed.

(** ** The settlement of one contract *)

Lemma missedProofDiffs_extend pb a b c fcid xs : forall i,
  missedProofDiffs (extend_pb pb a b c) fcid i xs = missedProofDiffs pb fcid i xs.
Proof.
  induction xs as [|p xs IH]; intros i; simpl; [|rewrite IH]; reflexivity.
Qed.


(** One round of the loop over the missed-proof outputs, case by case. *)
Lemma missedProofOutputs_from_cons fcid i mpo rest s :
  missedProofOutputs_from fcid i (mpo :: rest) s =
  if DEBUG && isSiacoinOutput (st_tx s)
                (StorageProofOutputID fcid ProofMissed (Z.of_nat i))
  then (Panicked errPayoutsAlreadyPaid, s)
  else
    let d := missedProofDiff (st_pb s) fcid i mpo in
    let pb1 := extend_pb (st_pb s) [] [d] [] in
    match commitDelayedSiacoinOutputDiff (st_tx s) d DiffApply with
    | (Some e, tx1) => (Failed e, {| st_tx := tx1; st_pb := pb1 |})
    | (None, tx1) =>
        missedProofOutputs_from fcid (S i) rest {| st_tx := tx1; st_pb := pb1 |}
    end.
Proof.
  simpl. unfold bind at 1. simpl. unfold bind at 1.
  destruct DEBUG; simpl.
  - destruct (isSiacoinOutput (st_tx s)
                (StorageProofOutputID fcid ProofMissed (Z.of_nat i)));
      [reflexivity|].
    simpl. unfold bind at 1. simpl. unfold bind at 1.
    rewrite append_dscod_run. unfold bind at 1. rewrite call_run. simpl.
    now destruct (commitDelayedSiacoinOutputDiff (st_tx s)
                    (missedProofDiff (st_pb s) fcid i mpo) DiffApply)
      as [[e|] tx1].
  - unfold bind at 1. simpl. unfold bind at 1.
    rewrite append_dscod_run. unfold bind at 1. rewrite call_run. simpl.
    now destruct (commitDelayedSiacoinOutputDiff (st_tx s)
                    (missedProofDiff (st_pb s) fcid i mpo) DiffApply)
      as [[e|] tx1].
Qed.

(** The diffs the loop leaves, whatever its outcome: those of the outputs
    it reached, in list order. *)
Lemma missedProofOutputs_from_diffs fcid xs : forall i s,
  exists done rest,
    xs = done ++ rest /\
    st_pb (snd (missedProofOutputs_from fcid i xs s)) =
      extend_pb (st_pb s) [] (missedProofDiffs (st_pb s) fcid i done) [] /\
    (fst (missedProofOutputs_from fcid i xs s) = Returned tt -> rest = []).
Proof.
  induction xs as [|mpo xs IH]; intros i s.
  - exists [], []. simpl. rewrite extend_pb_nil. auto.
  - rewrite missedProofOutputs_from_cons.
    destruct (DEBUG && isSiacoinOutput (st_tx s)
                (StorageProofOutputID fcid ProofMissed (Z.of_nat i))).
    { exists [], (mpo :: xs). simpl. rewrite extend_pb_nil.
      split; [reflexivity|]. split; [reflexivity|discriminate]. }
    cbv zeta.
    destruct (commitDelayedSiacoinOutputDiff (st_tx s)
                (missedProofDiff (st_pb s) fcid i mpo) DiffApply)
      as [[e|] tx1].
    { exists [mpo], xs. simpl.
      split; [reflexivity|]. split; [reflexivity|discriminate]. }
    destruct (IH (S i)
                {| st_tx := tx1;
                   st_pb := extend_pb (st_pb s) []
                              [missedProofDiff (st_pb s) fcid i mpo] [] |})
      as (done & rest & -> & Hpb & Hret).
    exists (mpo :: done), rest. simpl in *.
    split; [reflexivity|]. split; [|exact Hret].
    rewrite Hpb, missedProofDiffs_extend, extend_pb_extend. reflexivity.
Qed.

Lemma missedProofOutputs_from_app fcid pre : forall i post s s1,
  missedProofOutputs_from fcid i pre s = (Returned tt, s1) ->
  missedProofOutputs_from fcid i (pre ++ post) s =
  missedProofOutputs_from fcid (i + List.length pre) post s1.
Proof.
  induction pre as [|mpo pre IH]; intros i post s s1 H.
  - simpl in *. unfold ret in H. injection H as <-.
    now rewrite Nat.add_0_r.
  - rewrite <- app_comm_cons.
    rewrite missedProofOutputs_from_cons in *.
    destruct (DEBUG && isSiacoinOutput (st_tx s)
                (StorageProofOutputID fcid ProofMissed (Z.of_nat i)));
      [discriminate|].
    cbv zeta in *.
    destruct (commitDelayedSiacoinOutputDiff (st_tx s)
                (missedProofDiff (st_pb s) fcid i mpo) DiffApply)
      as [[e|] tx1]; [discriminate|].
    rewrite (IH (S i) post _ s1 H). simpl.
    now rewrite Nat.add_succ_r.
Qed.

(** The diffs the settlement of a fetched contract leaves, whatever its
    outcome. *)
Lemma applyTxMissedStorageProof_diffs fcid fc s :
  getFileContract (st_tx s) fcid = inr fc ->
  (DEBUG = true -> WindowEnd fc = Height (st_pb s)) ->
  (exists done rest,
     MissedProofOutputs fc = done ++ rest /\
     (fst (applyTxMissedStorageProof fcid s) <> Returned tt /\
      st_pb (snd (applyTxMissedStorageProof fcid s)) =
        extend_pb (st_pb s) [] (missedProofDiffs (st_pb s) fcid 0 done) [] \/
      rest = [] /\
      st_pb (snd (applyTxMissedStorageProof fcid s)) =
        extend_pb (st_pb s) [] (missedProofDiffs (st_pb s) fcid 0 done)
          [expiredDiff fcid fc])) /\
  (fst (applyTxMissedStorageProof fcid s) = Returned tt ->
   st_pb (snd (applyTxMissedStorageProof fcid s)) =
     extend_pb (st_pb s) []
       (missedProofDiffs (st_pb s) fcid 0 (MissedProofOutputs fc))
       [expiredDiff fcid fc]).
Proof.
  intros Hget Hok.
  rewrite (applyTxMissedStorageProof_settle fcid fc s Hget Hok).
  destruct (missedProofOutputs_from_diffs fcid (MissedProofOutputs fc) 0%nat s)
    as (done & rest & Hsplit & Hpb & Hret).
  rewrite bind_run.
  destruct (missedProofOutputs_from fcid 0 (MissedProofOutputs fc) s)
    as [[[]|e|e] s1]; simpl in *.
  - specialize (Hret eq_refl). subst rest. rewrite app_nil_r in Hsplit.
    subst done.
    assert (Hfin :
      st_pb (snd ((append_fcd (expiredDiff fcid fc);;
                   call (fun tx => commitFileContractDiff tx
                                     (expiredDiff fcid fc) DiffApply)) s1)) =
      extend_pb (st_pb s) [] (missedProofDiffs (st_pb s) fcid 0
                                (MissedProofOutputs fc))
        [expiredDiff fcid fc]).
    { unfold bind. rewrite append_fcd_run, call_run. simpl.
      rewrite Hpb, extend_pb_extend. simpl. now rewrite app_nil_r. }
    split.
    + exists (MissedProofOutputs fc), []. rewrite app_nil_r.
      split; [reflexivity|]. right. split; [reflexivity|]. exact Hfin.
    + intros _. exact Hfin.
  - split; [|discriminate]. exists done, rest.
    split; [exact Hsplit|]. left. split; [discriminate|exact Hpb].
  - split; [|discriminate]. exists done, rest.
    split; [exact Hsplit|]. left. split; [discriminate|exact Hpb].
Qed.


(** X3. In a debug build, when a missed-proof output of the contract being
    settled is already a spendable output, the settlement panics with
    [errPayoutsAlreadyPaid] at that output: the outputs before it are
    recorded and committed, nothing is recorded for it or for the outputs
    after it, and the contract diff is not recorded. *)
Theorem paid_missed_output_is_fatal (fcid : FileContractID)
    (fc : FileContract) (s s1 : St) (pre post : list SiacoinOutput)
    (mpo : SiacoinOutput) :
  DEBUG = true ->
  getFileContract (st_tx s) fcid = inr fc ->
  WindowEnd fc = Height (st_pb s) ->
  MissedProofOutputs fc = pre ++ mpo :: post ->
  missedProofOutputs_from fcid 0 pre s = (Returned tt, s1) ->
  isSiacoinOutput (st_tx s1)
    (StorageProofOutputID fcid ProofMissed (Z.of_nat (List.length pre)))
    = true ->
  applyTxMissedStorageProof fcid s = (Panicked errPayoutsAlreadyPaid, s1) /\
  st_pb s1 = extend_pb (st_pb s) [] (missedProofDiffs (st_pb s) fcid 0 pre) [].
Proof.
  intros Hd Hget Hwe Hsplit Hpre Hpaid. split.
  - rewrite (applyTxMissedStorageProof_settle fcid fc s Hget (fun _ => Hwe)).
    unfold bind at 1. rewrite Hsplit.
    rewrite (missedProofOutputs_from_app fcid pre 0 (mpo :: post) s s1 Hpre).
    rewrite missedProofOutputs_from_cons. simpl.
    now rewrite Hd, Hpaid.
  - destruct (missedProofOutputs_from_diffs fcid pre 0%nat s)
      as (done & rest & Hs & Hpb & Hret).
    rewrite Hpre in *. simpl in *. specialize (Hret eq_refl). subst rest.
    rewrite app_nil_r in Hs. now subst done.
Qed.

(** ** Maturation: the sanity check and the bucket deletion *)

(** X4. In a debug build, when a delayed output maturing at the height of
    the block is already a spendable output, maturation promotion panics
    with [errOutputAlreadyMature] at that entry: nothing is recorded or
    committed for it, the entries after it are not visited, and
    [deleteDSCOBucket] is not called. *)
Theorem mature_output_is_fatal (s s1 : St)
    (pre post : list (SiacoinOutputID * SiacoinOutput))
    (id : SiacoinOutputID) (sco : SiacoinOutput) :
  DEBUG = true ->
  MaturityDelay < Height (st_pb s) ->
  dscoBucket (st_tx s) (Height (st_pb s)) = pre ++ (id, sco) :: post ->
  forEach pre maturedVisit s = (Returned tt, s1) ->
  isSiacoinOutput (st_tx s1) id = true ->
  maturedVisit id sco s1 = (Panicked errOutputAlreadyMature, s1) /\
  applyMaturedSiacoinOutputs s = (Panicked errOutputAlreadyMature, s1).
Proof.
  intros Hd Hh Hb Hpre Hin.
  assert (Hv : maturedVisit id sco s1 = (Panicked errOutputAlreadyMature, s1)).
  { rewrite maturedVisit_run. now rewrite Hd, Hin. }
  split; [exact Hv|].
  rewrite (applyMaturedSiacoinOutputs_old_enough s Hh), Hb.
  unfold bind at 1.
  rewrite (forEach_app maturedVisit pre _ s s1 Hpre), forEach_cons.
  now rewrite Hv.
Qed.

(** X5. Above [MaturityDelay], [deleteDSCOBucket] is called only after a
    walk that visited every entry to the end.  When the walk stops on an
    error or a panic, that is the outcome of the stage and the state is the
    one the walk left.  When the walk returns, the outcome of the stage is
    the outcome of [deleteDSCOBucket] at the height of the block, and both
    diffs of every entry are recorded even if the deletion fails. *)
Theorem deleteDSCOBucket_after_full_walk (s : St) :
  MaturityDelay < Height (st_pb s) ->
  let h := Height (st_pb s) in
  let entries := dscoBucket (st_tx s) h in
  let walk := forEach entries maturedVisit s in
  (fst walk <> Returned tt -> applyMaturedSiacoinOutputs s = walk) /\
  (fst walk = Returned tt ->
   applyMaturedSiacoinOutputs s =
     (returned_or (fst (deleteDSCOBucket (st_tx (snd walk)) h)),
      {| st_tx := snd (deleteDSCOBucket (st_tx (snd walk)) h);
         st_pb := extend_pb (st_pb s) (maturedDiffs entries)
                    (consumedDiffs (st_pb s) entries) [] |})).
Proof.
  intros Hh h entries walk. subst h entries walk.
  rewrite (applyMaturedSiacoinOutputs_old_enough s Hh).
  destruct (forEach_maturedVisit_diffs
              (dscoBucket (st_tx s) (Height (st_pb s))) s)
    as (done & rest & Hsplit & Hpb & Hret).
  unfold bind.
  destruct (forEach (dscoBucket (st_tx s) (Height (st_pb s))) maturedVisit s)
    as [[[]|e|e] s1]; simpl in *.
  - split; [intros H; now elim H|]. intros _.
    rewrite call_run. unfold returned_or.
    specialize (Hret eq_refl). subst rest. rewrite app_nil_r in Hsplit.
    destruct Hpb as [Hpb|(x & rest' & Hcons & _)]; [|discriminate].
    rewrite Hpb, Hsplit. reflexivity.
  - split; [reflexivity|discriminate].
  - split; [reflexivity|discriminate].
Qed.

(** ** Panics *)

Lemma never_panics_pure {A} e (a : A) : never_panics_with e (ret a).
Proof. intros s. discriminate. Qed.

Lemma never_panics_forEach {K V} e (fn : K -> V -> M unit) :
  (forall k v, never_panics_with e (fn k v)) ->
  forall entries, never_panics_with e (forEach entries fn).
Proof.
  intros Hfn entries. induction entries as [|[k v] rest IH]; simpl.
  - apply never_panics_pure.
  - apply never_panics_bind; [apply Hfn|intros _; exact IH].
Qed.

Lemma never_panics_applyMinerPayouts_from e xs : forall i,
  never_panics_with e (applyMinerPayouts_from i xs).
Proof.
  induction xs as [|p xs IH]; intros i; simpl.
  - apply never_panics_pure.
  - apply never_panics_bind; [intros s; discriminate|intros pb].
    apply never_panics_bind; [apply never_panics_update_pb|intros _].
    apply never_panics_bind; [apply never_panics_call|intros _]. apply IH.
Qed.

Section SanityPanics.
Variable e : error.
Hypothesis not_a_sanity_panic :
  DEBUG = false \/
  (e <> errOutputAlreadyMature /\ e <> errPayoutsAlreadyPaid /\
   e <> errStorageProofTiming).

Lemma never_panics_maturedVisit id sco :
  never_panics_with e (maturedVisit id sco).
Proof.
  intros s. rewrite maturedVisit_run.
  destruct DEBUG eqn:Hd; simpl.
  - destruct (isSiacoinOutput (st_tx s) id); simpl.
    + destruct not_a_sanity_panic as [H|(H & _ & _)]; [discriminate|].
      intros E. apply H. now injection E.
    + destruct (commitSiacoinOutputDiff (st_tx s) (maturedDiff id sco)
                  DiffApply) as [[e'|] tx1]; [discriminate|].
      apply never_panics_call.
  - destruct (commitSiacoinOutputDiff (st_tx s) (maturedDiff id sco)
                DiffApply) as [[e'|] tx1]; [discriminate|].
    apply never_panics_call.
Qed.

Lemma never_panics_missedProofOutputs_from fcid xs : forall i,
  never_panics_with e (missedProofOutputs_from fcid i xs).
Proof.
  induction xs as [|mpo xs IH]; intros i s.
  - discriminate.
  - rewrite missedProofOutputs_from_cons.
    destruct DEBUG eqn:Hd; simpl.
    + destruct (isSiacoinOutput (st_tx s) _); simpl.
      * destruct not_a_sanity_panic as [H|(_ & H & _)]; [discriminate|].
        intros E. apply H. now injection E.
      * destruct (commitDelayedSiacoinOutputDiff (st_tx s) _ DiffApply)
          as [[e'|] tx1]; [discriminate|apply IH].
    + destruct (commitDelayedSiacoinOutputDiff (st_tx s) _ DiffApply)
        as [[e'|] tx1]; [discriminate|apply IH].
Qed.

Lemma never_panics_applyTxMissedStorageProof fcid :
  never_panics_with e (applyTxMissedStorageProof fcid).
Proof.
  unfold applyTxMissedStorageProof.
  apply never_panics_bind; [intros s; discriminate|intros tx].
  destruct (getFileContract tx fcid) as [err|fc]; [intros s; discriminate|].
  apply never_panics_bind; [intros s; discriminate|intros pb].
  apply never_panics_bind.
  { destruct DEBUG eqn:Hd; [|apply never_panics_pure].
    destruct (negb (WindowEnd fc =? Height pb)); [|apply never_panics_pure].
    destruct not_a_sanity_panic as [H|(_ & _ & H)]; [discriminate|].
    intros s E. apply H. now injection E. }
  intros _. apply never_panics_bind;
    [apply never_panics_missedProofOutputs_from|intros _].
  apply never_panics_bind; [apply never_panics_update_pb|intros _].
  apply never_panics_call.
Qed.

Lemma never_panics_applyMaintenance : never_panics_with e applyMaintenance.
Proof.
  unfold applyMaintenance.
  apply never_panics_bind.
  { unfold applyMinerPayouts.
    apply never_panics_bind; [intros s; discriminate|intros pb].
    apply never_panics_applyMinerPayouts_from. }
  intros _. apply never_panics_bind.
  { unfold applyMaturedSiacoinOutputs, forEachDSCO.
    apply never_panics_bind; [intros s; discriminate|intros pb].
    destruct (negb (Height pb >? MaturityDelay)); [apply never_panics_pure|].
    apply never_panics_bind; [|intros _; apply never_panics_call].
    apply never_panics_bind; [intros s; discriminate|intros tx].
    apply never_panics_forEach. apply never_panics_maturedVisit. }
  intros _. unfold applyFileContractMaintenance.
  apply never_panics_bind; [intros s; discriminate|intros pb].
  apply never_panics_bind; [intros s; discriminate|intros tx].
  destruct (Bucket tx (fceBucketID pb)); [|apply never_panics_pure].
  apply never_panics_forEach. intros k v.
  apply never_panics_applyTxMissedStorageProof.
Qed.

End SanityPanics.

(** X6. The only panics of the maintenance code are its three sanity
    checks, and they exist in debug builds only: when [applyMaintenance]
    ends in a panic, [DEBUG] is set and the panic carries
    [errOutputAlreadyMature], [errPayoutsAlreadyPaid] or
    [errStorageProofTiming]. *)
Theorem panics_are_debug_sanity_checks (s : St) (e : error) :
  fst (applyMaintenance s) = Panicked e ->
  DEBUG = true /\
  (e = errOutputAlreadyMature \/ e = errPayoutsAlreadyPaid \/
   e = errStorageProofTiming).
Proof.
  intros H.
  destruct DEBUG eqn:Hd.
  - split; [reflexivity|].
    destruct e as [| | | |msg].
    + exfalso.
      apply (never_panics_applyMaintenance errMissingFileContract) in H;
        [exact H|right; repeat split; discriminate].
    + now left.
    + right. now left.
    + right. now right.
    + exfalso.
      apply (never_panics_applyMaintenance (errExternal msg)) in H;
        [exact H|right; repeat split; discriminate].
  - exfalso. apply (never_panics_applyMaintenance e) in H; [exact H|].
    left. exact Hd.
Qed.

(** ** The identity read from a key of the expiry bucket *)

Lemma skipn_repeat {A} (x : A) : forall n m,
  skipn m (repeat x n) = repeat x (n - m).
Proof.
  induction n as [|n IH]; intros m.
  - now destruct m.
  - destruct m as [|m]; simpl; [reflexivity|apply IH].
Qed.

(** X7. The identity that contract-expiry settlement reads from a key of the
    expiry bucket always has thirty-two bytes: a key of that length is taken
    as it is, a shorter key is padded with zero bytes at the end, a longer
    key is cut after its first thirty-two bytes; so for a key of thirty-two
    bytes the contract settled is the one the key names. *)
Theorem contract_id_of_key (k v : list byte) :
  List.length (copy zeroHash k) = HashSize /\
  (List.length k = HashSize ->
   copy zeroHash k = k /\
   forall s, fceVisit k v s = applyTxMissedStorageProof k s) /\
  ((List.length k <= HashSize)%nat ->
   copy zeroHash k = k ++ repeat x00 (HashSize - List.length k)) /\
  ((HashSize <= List.length k)%nat -> copy zeroHash k = firstn HashSize k).
Proof.
  assert (Hz : List.length zeroHash = HashSize) by apply repeat_length.
  assert (Hshort : (List.length k <= HashSize)%nat ->
            copy zeroHash k = k ++ repeat x00 (HashSize - List.length k)).
  { intros H. unfold copy. rewrite Hz.
    rewrite (firstn_all2 (n := HashSize) k H).
    unfold zeroHash. now rewrite skipn_repeat. }
  assert (Hlong : (HashSize <= List.length k)%nat ->
            copy zeroHash k = firstn HashSize k).
  { intros H. unfold copy. rewrite Hz.
    rewrite skipn_all2 by (rewrite Hz; exact H). apply app_nil_r. }
  split; [|split; [|split]].
  - unfold copy. rewrite length_app, length_firstn, length_skipn, Hz. lia.
  - intros H.
    assert (Hk : copy zeroHash k = k).
    { rewrite Hshort by lia. rewrite H, Nat.sub_diag. apply app_nil_r. }
    split; [exact Hk|]. intros s. unfold fceVisit. now rewrite Hk.
  - exact Hshort.
  - exact Hlong.
Qed.

(** ** Contract expiry, in every outcome *)

Lemma Forall_missedProofDiffs pb fcid xs : forall i,
  Forall (fun d => dscod_Direction d = DiffApply /\
                   dscod_MaturityHeight d = height_add (Height pb) MaturityDelay)
    (missedProofDiffs pb fcid i xs).
Proof.
  induction xs as [|mpo xs IH]; intros i; simpl; constructor.
  - split; reflexivity.
  - apply IH.
Qed.

(** What the settlement of one identity leaves in the processed block,
    whether or not its contract is found and well timed. *)
Lemma applyTxMissedStorageProof_shape fcid s :
  exists ds fcds,
    st_pb (snd (applyTxMissedStorageProof fcid s)) =
      extend_pb (st_pb s) [] ds fcds /\
    Forall (fun d => dscod_Direction d = DiffApply /\
                     dscod_MaturityHeight d =
                       height_add (Height (st_pb s)) MaturityDelay) ds /\
    (fcds = [] /\ fst (applyTxMissedStorageProof fcid s) <> Returned tt \/
     exists fc, fcds = [expiredDiff fcid fc]).
Proof.
  destruct (getFileContract (st_tx s) fcid) as [err|fc] eqn:Hget.
  { rewrite (applyTxMissedStorageProof_missing fcid s err Hget).
    exists [], []. simpl. rewrite extend_pb_nil.
    split; [reflexivity|]. split; [constructor|]. left.
    split; [reflexivity|discriminate]. }
  destruct (Z.eq_dec (WindowEnd fc) (Height (st_pb s))) as [Heq|Hne].
  - destruct (applyTxMissedStorageProof_diffs fcid fc s Hget (fun _ => Heq))
      as [(done & rest & _ & [[Hnr Hpb]|[_ Hpb]]) _].
    + exists (missedProofDiffs (st_pb s) fcid 0 done), [].
      split; [exact Hpb|]. split; [apply Forall_missedProofDiffs|].
      left. split; [reflexivity|exact Hnr].
    + exists (missedProofDiffs (st_pb s) fcid 0 done), [expiredDiff fcid fc].
      split; [exact Hpb|]. split; [apply Forall_missedProofDiffs|].
      right. now exists fc.
  - destruct DEBUG eqn:Hd.
    + rewrite (applyTxMissedStorageProof_wrong_height fcid fc s Hd Hget Hne).
      exists [], []. simpl. rewrite extend_pb_nil.
      split; [reflexivity|]. split; [constructor|]. left.
      split; [reflexivity|discriminate].
    + assert (Hok : DEBUG = true -> WindowEnd fc = Height (st_pb s)).
      { rewrite Hd. discriminate. }
      destruct (applyTxMissedStorageProof_diffs fcid fc s Hget Hok)
        as [(done & rest & _ & [[Hnr Hpb]|[_ Hpb]]) _].
      * exists (missedProofDiffs (st_pb s) fcid 0 done), [].
        split; [exact Hpb|]. split; [apply Forall_missedProofDiffs|].
        left. split; [reflexivity|exact Hnr].
      * exists (missedProofDiffs (st_pb s) fcid 0 done),
               [expiredDiff fcid fc].
        split; [exact Hpb|]. split; [apply Forall_missedProofDiffs|].
        right. now exists fc.
Qed.

Lemma forEach_fceVisit_diffs entries : forall s,
  exists ds fcds done rest,
    entries = done ++ rest /\
    st_pb (snd (forEach entries fceVisit s)) =
      extend_pb (st_pb s) [] ds fcds /\
    map fcd_ID fcds = map (fun x => copy zeroHash (fst x)) done /\
    Forall (fun d => fcd_Direction d = DiffRevert) fcds /\
    Forall (fun d => dscod_Direction d = DiffApply /\
                     dscod_MaturityHeight d =
                       height_add (Height (st_pb s)) MaturityDelay) ds /\
    (fst (forEach entries fceVisit s) = Returned tt -> rest = []).
Proof.
  induction entries as [|[k v] entries IH]; intros s.
  - exists [], [], [], []. simpl. rewrite extend_pb_nil.
    repeat split; constructor.
  - rewrite forEach_cons.
    change (fceVisit k v s)
      with (applyTxMissedStorageProof (copy zeroHash k) s).
    destruct (applyTxMissedStorageProof_shape (copy zeroHash k) s)
      as (ds & fcds & Hpb & Hds & Hfc).
    destruct (applyTxMissedStorageProof (copy zeroHash k) s)
      as [[[]|e|e] s1]; simpl in *.
    + destruct Hfc as [[_ Hnr]|[fc ->]]; [now elim Hnr|].
      destruct (IH s1) as (ds' & fcds' & done & rest & -> & Hpb' & Hid
                           & Hrev & Hds' & Hret).
      exists (ds ++ ds'), (expiredDiff (copy zeroHash k) fc :: fcds'),
             ((k, v) :: done), rest.
      split; [reflexivity|]. split.
      { rewrite Hpb', Hpb, extend_pb_extend. reflexivity. }
      split; [simpl; now rewrite Hid|].
      split; [constructor; [reflexivity|exact Hrev]|].
      split; [|exact Hret].
      apply Forall_app. split; [exact Hds|]. rewrite Hpb in Hds'. exact Hds'.
    + destruct Hfc as [[-> _]|[fc ->]].
      * exists ds, [], [], ((k, v) :: entries).
        repeat split; try constructor; try exact Hpb; try exact Hds.
        discriminate.
      * exists ds, [expiredDiff (copy zeroHash k) fc], [(k, v)], entries.
        repeat split; try exact Hpb; try exact Hds; try discriminate.
        constructor; [reflexivity|constructor].
    + destruct Hfc as [[-> _]|[fc ->]].
      * exists ds, [], [], ((k, v) :: entries).
        repeat split; try constructor; try exact Hpb; try exact Hds.
        discriminate.
      * exists ds, [expiredDiff (copy zeroHash k) fc], [(k, v)], entries.
        repeat split; try exact Hpb; try exact Hds; try discriminate.
        constructor; [reflexivity|constructor].
Qed.


(** X8. Whatever its outcome, contract-expiry settlement records nothing in
    the spendable-output sequence; the contract diffs it records are Revert
    diffs, one for each identity of an initial part of the expiry bucket, in
    bucket order, each under the thirty-two byte identity read from the key;
    the delayed diffs it records are Apply diffs maturing at the height of
    the block plus [MaturityDelay]; and on a normal return every identity of
    the bucket has its contract diff. *)
Theorem applyFileContractMaintenance_records (s : St) :
  let entries := match Bucket (st_tx s) (fceBucketID (st_pb s)) with
                 | Some entries => entries
                 | None => []
                 end in
  let r := applyFileContractMaintenance s in
  exists ds fcds done rest,
    entries = done ++ rest /\
    st_pb (snd r) = extend_pb (st_pb s) [] ds fcds /\
    map fcd_ID fcds = map (fun x => copy zeroHash (fst x)) done /\
    Forall (fun d => fcd_Direction d = DiffRevert) fcds /\
    Forall (fun d => dscod_Direction d = DiffApply /\
                     dscod_MaturityHeight d =
                       height_add (Height (st_pb s)) MaturityDelay) ds /\
    (fst r = Returned tt -> rest = []).
Proof.
  intros entries r. subst entries r.
  rewrite applyFileContractMaintenance_run.
  destruct (Bucket (st_tx s) (fceBucketID (st_pb s))) as [entries|].
  - apply forEach_fceVisit_diffs.
  - exists [], [], [], []. simpl. rewrite extend_pb_nil.
    repeat split; constructor.
Qed.

(** ** The three stages together *)




(** ** Maturity heights *)

(** X10. A delayed output scheduled by maintenance, for a payout or for a
    missed proof, never matures at the height of its own block, as long as
    the height is a 64-bit value and [MaturityDelay] is positive and below
    2^64.  Its maturity height is the height plus [MaturityDelay] when that
    sum fits in 64 bits; when it does not, the sum wraps and the maturity
    height lies below the height of the block. *)
Theorem scheduled_output_matures_elsewhere (pb : processedBlock)
    (fcid : FileContractID) (i : nat) (sco : SiacoinOutput) :
  0 <= Height pb < 2 ^ 64 ->
  0 < MaturityDelay < 2 ^ 64 ->
  let h := dscod_MaturityHeight (minerPayoutDiff pb i sco) in
  dscod_MaturityHeight (missedProofDiff pb fcid i sco) = h /\
  h <> Height pb /\
  (Height pb + MaturityDelay < 2 ^ 64 -> h = Height pb + MaturityDelay) /\
  (2 ^ 64 <= Height pb + MaturityDelay ->
   h = Height pb + MaturityDelay - 2 ^ 64 /\ h < Height pb).
Proof.
  intros Hh Hd h. subst h. simpl. unfold height_add, uint64_wrap.
  split; [reflexivity|].
  destruct (Z_lt_le_dec (Height pb + MaturityDelay) (2 ^ 64)) as [Hfit|Hwrap].
  - rewrite Z.mod_small by lia. repeat split; lia.
  - assert (Hm : (Height pb + MaturityDelay) mod 2 ^ 64 =
                 Height pb + MaturityDelay - 2 ^ 64).
    { symmetry. apply Z.mod_unique with (q := 1); lia. }
    rewrite Hm. repeat split; lia.
Qed.

(** ** The spendable set outside maturation *)

(** X11. Miner-payout promotion and contract-expiry settlement reach the
    store only through commits of delayed-output diffs and of contract
    diffs.  So when these two helpers do not change which identities are
    spendable outputs, neither stage does, whatever its outcome: of the
    three stages only maturation adds to the spendable set. *)
Theorem spendable_set_kept_outside_maturation (s : St) :
  (forall tx d dir id,
     isSiacoinOutput (snd (commitDelayedSiacoinOutputDiff tx d dir)) id
       = isSiacoinOutput tx id) ->
  (forall tx d dir id,
     isSiacoinOutput (snd (commitFileContractDiff tx d dir)) id
       = isSiacoinOutput tx id) ->
  forall id,
    isSiacoinOutput (st_tx (snd (applyMinerPayouts s))) id
      = isSiacoinOutput (st_tx s) id /\
    isSiacoinOutput (st_tx (snd (applyFileContractMaintenance s))) id
      = isSiacoinOutput (st_tx s) id.
Proof.
  intros Hd Hf id.
  set (R := fun s0 s' : St =>
              isSiacoinOutput (st_tx s') id = isSiacoinOutput (st_tx s0) id).
  assert (Hrefl : forall s0, R s0 s0) by reflexivity.
  assert (Htrans : forall a b c, R a b -> R b c -> R a c).
  { unfold R. intros a b c Hab Hbc. now rewrite Hbc. }
  assert (Hupd : forall f, preserves R (update_pb f)).
  { intros f s0. reflexivity. }
  assert (Hcd : forall d dir,
            preserves R
              (call (fun tx => commitDelayedSiacoinOutputDiff tx d dir))).
  { intros d dir s0. unfold R. rewrite call_run. apply Hd. }
  assert (Hcf : forall d dir,
            preserves R (call (fun tx => commitFileContractDiff tx d dir))).
  { intros d dir s0. unfold R. rewrite call_run. apply Hf. }
  split.
  - apply (preserves_applyMinerPayouts R Hrefl Htrans
             (fun d => Hupd _) Hcd).
  - apply (preserves_applyFileContractMaintenance R Hrefl Htrans
             (fun d => Hupd _) (fun d => Hupd _) Hcd Hcf).
Qed.

End Further.

(** ** Runs of the further properties on the in-memory store *)

Lemma mem_write_scos tx f :
  (forall tx0, mem_scos (f tx0) = mem_scos tx0) ->
  mem_scos (snd (mem_write tx f)) = mem_scos tx.
Proof.
  intros Hf. unfold mem_write. destruct (mem_writes tx); simpl; auto.
Qed.


(** The second missed-proof output is already spendable: the first one is
    recorded, then the settlement panics. *)
Lemma paid_missed_output_is_fatal_witness :
  let s := mem_st 5 true (txAlreadyPaid 9) blkNone 20 in
  let s1 := snd (missedProofOutputs_from fcidC 0 [V1] s) in
  applyTxMissedStorageProof fcidC s = (Panicked errPayoutsAlreadyPaid, s1) /\
  st_pb s1 = extend_pb (st_pb s) [] (missedProofDiffs (st_pb s) fcidC 0 [V1]) [].
Proof.
  intros s s1.
  exact (@paid_missed_output_is_fatal (memStore 5 true) fcidC fcNow s s1
           [V1] [] V2 eq_refl eq_refl eq_refl eq_refl eq_refl eq_refl).
Defined.

(** The second output maturing at height 15 is already spendable. *)
Lemma mature_output_is_fatal_witness :
  let s := mem_st 5 true (txAlreadyMature 9) blkNone 15 in
  let s1 := snd (forEach [(idA, V1)] maturedVisit s) in
  maturedVisit idB V2 s1 = (Panicked errOutputAlreadyMature, s1) /\
  applyMaturedSiacoinOutputs s = (Panicked errOutputAlreadyMature, s1).
Proof.
  intros s s1.
  apply (@mature_output_is_fatal (memStore 5 true) s s1 [(idA, V1)] []
           idB V2 eq_refl); reflexivity.
Defined.

(** A store that accepts two writes stops the walk at the second entry; a
    store that accepts four lets the walk finish and refuses the deletion
    of the bucket. *)
Lemma deleteDSCOBucket_after_full_walk_witness :
  let s := mem_st 5 true (txMaturing 2) blkNone 15 in
  let s' := mem_st 5 true (txMaturing 4) blkNone 15 in
  applyMaturedSiacoinOutputs s =
    forEach [(idA, V1); (idB, V2)] maturedVisit s /\
  fst (applyMaturedSiacoinOutputs s') = Failed errWrite /\
  st_pb (snd (applyMaturedSiacoinOutputs s')) =
    extend_pb (st_pb s') (maturedDiffs [(idA, V1); (idB, V2)])
      (consumedDiffs (st_pb s') [(idA, V1); (idB, V2)]) [].
Proof.
  intros s s'.
  assert (H15 : 5 < 15) by lia.
  split.
  - apply (proj1 (@deleteDSCOBucket_after_full_walk (memStore 5 true) s H15)).
    discriminate.
  - pose proof (proj2 (@deleteDSCOBucket_after_full_walk (memStore 5 true)
                         s' H15) eq_refl) as H.
    split.
    + exact (f_equal fst H).
    + exact (f_equal (fun r => st_pb (snd r)) H).
Defined.

(** The mistimed contract of height 20 makes a debug build panic. *)
Lemma panics_are_debug_sanity_checks_witness :
  let s := mem_st 5 true (txMistimed 9) blkNone 20 in
  fst (applyMaintenance s) = Panicked errStorageProofTiming /\
  @DEBUG (memStore 5 true) = true /\
  (errStorageProofTiming = errOutputAlreadyMature \/
   errStorageProofTiming = errPayoutsAlreadyPaid \/
   errStorageProofTiming = errStorageProofTiming).
Proof.
  intros s. split; [reflexivity|].
  exact (@panics_are_debug_sanity_checks (memStore 5 true) s
           errStorageProofTiming eq_refl).
Defined.

(** A key of thirty-two bytes and a key of one byte. *)
Lemma contract_id_of_key_witness :
  copy zeroHash fcidC = fcidC /\
  copy zeroHash [xc1] = fcidC.
Proof.
  split.
  - apply (proj1 (proj1 (proj2
             (@contract_id_of_key (memStore 5 true) fcidC [])) eq_refl)).
  - rewrite (proj1 (proj2 (proj2
               (@contract_id_of_key (memStore 5 true) [xc1] []))));
      [reflexivity|simpl; unfold HashSize; lia].
Defined.


(** Height 10 with a delay of 5, and the last 64-bit height. *)
Lemma scheduled_output_matures_elsewhere_witness :
  dscod_MaturityHeight (minerPayoutDiff (mem_pb 5 true blkOne 10) 0 V1) = 15 /\
  dscod_MaturityHeight
    (minerPayoutDiff (mem_pb 5 true blkOne (2 ^ 64 - 1)) 0 V1) = 4.
Proof.
  split.
  - rewrite (proj1 (proj2 (proj2
      (@scheduled_output_matures_elsewhere (memStore 5 true)
         (mem_pb 5 true blkOne 10) fcidC 0 V1
         ltac:(simpl; lia) ltac:(simpl; lia)))));
      [reflexivity|simpl; lia].
  - rewrite (proj1 (proj2 (proj2 (proj2
      (@scheduled_output_matures_elsewhere (memStore 5 true)
         (mem_pb 5 true blkOne (2 ^ 64 - 1)) fcidC 0 V1
         ltac:(simpl; lia) ltac:(simpl; lia))))
      ltac:(simpl; lia))).
    simpl. lia.
Defined.

(** The in-memory commits of delayed and contract diffs leave the spendable
    set alone. *)
Lemma spendable_set_kept_outside_maturation_witness :
  let s := mem_st 5 true (txAlreadyPaid 9) blkThree 20 in
  isSiacoinOutput (st_tx (snd (applyMinerPayouts s)))
    (fcidC ++ x00 :: le_bytes 8 1) = true /\
  isSiacoinOutput (st_tx (snd (applyFileContractMaintenance s))) idA = false.
Proof.
  intros s.
  assert (Hd : forall (tx : MemTx) d dir id,
            mem_isSiacoinOutput
              (snd (mem_commitDelayedSiacoinOutputDiff tx d dir)) id
            = mem_isSiacoinOutput tx id).
  { intros tx d dir id. unfold mem_isSiacoinOutput.
    unfold mem_commitDelayedSiacoinOutputDiff.
    now rewrite mem_write_scos. }
  assert (Hf : forall (tx : MemTx) d dir id,
            mem_isSiacoinOutput (snd (mem_commitFileContractDiff tx d dir)) id
            = mem_isSiacoinOutput tx id).
  { intros tx d dir id. unfold mem_isSiacoinOutput.
    unfold mem_commitFileContractDiff.
    now rewrite mem_write_scos. }
  split.
  - rewrite (proj1 (@spendable_set_kept_outside_maturation
                      (memStore 5 true) s Hd Hf _)).
    reflexivity.
  - rewrite (proj2 (@spendable_set_kept_outside_maturation
                      (memStore 5 true) s Hd Hf _)).
    reflexivity.
Defined.

(** ** Where returned errors come from *)

Section Returned.
Context {C : Collaborators}.
Variable e : error.

Lemma never_returns_bind {A B} (m : M A) (k : A -> M B) :
  never_returns e m -> (forall a, never_returns e (k a)) ->
  never_returns e (bind m k).
Proof.
  intros Hm Hk s. unfold bind. specialize (Hm s).
  destruct (m s) as [[a|e'|e'] s1]; simpl in *.
  - apply Hk.
  - intros H. apply Hm. now injection H as ->.
  - discriminate.
Qed.

Lemma never_returns_quiet {A} (m : M A) :
  (forall s, exists a, fst (m s) = Returned a) -> never_returns e m.
Proof. intros H s. destruct (H s) as [a ->]. discriminate. Qed.

Lemma never_returns_panic {A} e' : never_returns e (@panic _ A e').
Proof. intros s. discriminate. Qed.

Lemma never_returns_call f :
  (forall tx, fst (f tx) <> Some e) -> never_returns e (call f).
Proof.
  intros Hf s. rewrite call_run. simpl. specialize (Hf (st_tx s)).
  destruct (fst (f (st_tx s))) as [e'|]; [|discriminate].
  intros H. apply Hf. now injection H as ->.
Qed.

Lemma never_returns_forEach {K V} (fn : K -> V -> M unit) :
  (forall k v, never_returns e (fn k v)) ->
  forall entries, never_returns e (forEach entries fn).
Proof.
  intros Hfn entries. induction entries as [|[k v] rest IH]; simpl.
  - intros s. discriminate.
  - apply never_returns_bind; [apply Hfn|intros _; exact IH].
Qed.

Hypothesis sco_quiet :
  forall tx d dir, fst (commitSiacoinOutputDiff tx d dir) <> Some e.
Hypothesis dsco_quiet :
  forall tx d dir, fst (commitDelayedSiacoinOutputDiff tx d dir) <> Some e.
Hypothesis fc_quiet :
  forall tx d dir, fst (commitFileContractDiff tx d dir) <> Some e.
Hypothesis delete_quiet :
  forall tx h, fst (deleteDSCOBucket tx h) <> Some e.
Hypothesis fetch_quiet :
  forall tx id, getFileContract tx id <> inl e.

Ltac quiet :=
  repeat match goal with
  | |- never_returns _ (bind _ _) => apply never_returns_bind; [|intro]
  | |- never_returns _ (ret _) => intros ?; discriminate
  | |- never_returns _ get_tx => intros ?; discriminate
  | |- never_returns _ get_pb => intros ?; discriminate
  | |- never_returns _ (panic _) => apply never_returns_panic
  | |- never_returns _ (append_scod _) => intros ?; discriminate
  | |- never_returns _ (append_dscod _) => intros ?; discriminate
  | |- never_returns _ (append_fcd _) => intros ?; discriminate
  | |- never_returns _ (call _) =>
      apply never_returns_call; intros ?;
      first [apply sco_quiet | apply dsco_quiet | apply fc_quiet
            | apply delete_quiet]
  | |- never_returns _ (if ?b then _ else _) => destruct b
  end.

Lemma never_returns_applyMinerPayouts_from xs : forall i,
  never_returns e (applyMinerPayouts_from i xs).
Proof. induction xs as [|p xs IH]; intros i; simpl; quiet. apply IH. Qed.

Lemma never_returns_missedProofOutputs_from fcid xs : forall i,
  never_returns e (missedProofOutputs_from fcid i xs).
Proof. induction xs as [|p xs IH]; intros i; simpl; quiet. apply IH. Qed.

Lemma never_returns_applyTxMissedStorageProof fcid :
  never_returns e (applyTxMissedStorageProof fcid).
Proof.
  unfold applyTxMissedStorageProof. quiet.
  destruct (getFileContract a fcid) as [err|fc] eqn:Hget.
  - intros s H. apply (fetch_quiet a fcid). rewrite Hget.
    unfold fail in H. simpl in H. now injection H as ->.
  - quiet. apply never_returns_missedProofOutputs_from.
Qed.

Lemma never_returns_applyMaintenance : never_returns e applyMaintenance.
Proof.
  unfold applyMaintenance, applyMinerPayouts, applyMaturedSiacoinOutputs,
    forEachDSCO, applyFileContractMaintenance.
  quiet.
  - apply never_returns_applyMinerPayouts_from.
  - apply never_returns_forEach. intros id sco. unfold maturedVisit. quiet.
  - destruct (Bucket _ _); [|intros ?; discriminate].
    apply never_returns_forEach. intros k v.
    apply never_returns_applyTxMissedStorageProof.
Qed.

End Returned.

(** X12. The maintenance code makes no error of its own to return: every
    error [applyMaintenance] returns is one that a commit helper,
    [deleteDSCOBucket] or [getFileContract] returned.  An error that none of
    them returns, the sanity errors of the file among them, is never the
    returned error of [applyMaintenance]. *)
Theorem returned_errors_come_from_helpers {C : Collaborators}
    (s : St) (e : error) :
  (forall tx d dir, fst (commitSiacoinOutputDiff tx d dir) <> Some e) ->
  (forall tx d dir, fst (commitDelayedSiacoinOutputDiff tx d dir) <> Some e) ->
  (forall tx d dir, fst (commitFileContractDiff tx d dir) <> Some e) ->
  (forall tx h, fst (deleteDSCOBucket tx h) <> Some e) ->
  (forall tx id, getFileContract tx id <> inl e) ->
  fst (applyMaintenance s) <> Failed e.
Proof.
  intros H1 H2 H3 H4 H5.
  exact (never_returns_applyMaintenance e H1 H2 H3 H4 H5 s).
Qed.

Lemma mem_write_error tx f e :
  e <> errWrite -> fst (mem_write tx f) <> Some e.
Proof.
  intros He. unfold mem_write. destruct (mem_writes tx); simpl.
  - intros H. apply He. now injection H.
  - discriminate.
Qed.

(** The in-memory helpers return the write error and the missing-contract
    error only; on the mistimed contract a debug build panics with the
    timing error and does not return it. *)
Lemma returned_errors_come_from_helpers_witness :
  let s := mem_st 5 true (txMistimed 9) blkNone 20 in
  fst (applyMaintenance s) = Panicked errStorageProofTiming /\
  fst (applyMaintenance s) <> Failed errStorageProofTiming.
Proof.
  intros s. split; [reflexivity|].
  apply (@returned_errors_come_from_helpers (memStore 5 true) s
           errStorageProofTiming).
  - intros tx d dir. apply mem_write_error. discriminate.
  - intros tx d dir. apply mem_write_error. discriminate.
  - intros tx d dir. apply mem_write_error. discriminate.
  - intros tx h. simpl. unfold mem_deleteDSCOBucket.
    destruct (assoc_get Z.eqb h (mem_dscos tx)).
    + apply mem_write_error. discriminate.
    + discriminate.
  - intros tx id. simpl. unfold mem_getFileContract.
    destruct (assoc_get bytes_eqb id (mem_fcs tx)); discriminate.
Defined.

(** * Heights at which nothing matures and nothing expires *)

(** C8 (amended). With no delayed output at the height of the block,
    maturation promotion appends no diff and commits nothing: at or below
    [MaturityDelay] it returns without an error and changes nothing, and
    above it what it returns, and the store it leaves, are what
    [deleteDSCOBucket] returns and leaves for that height, so it returns
    without an error exactly when that deletion does.  With no expiry bucket
    at the height, or an empty one, contract-expiry settlement returns
    without an error and leaves the store and the processed block as they
    were. *)
Theorem nothing_to_do_records_nothing {C : Collaborators} (s : St) :
  dscoBucket (st_tx s) (Height (st_pb s)) = [] ->
  Bucket (st_tx s) (fceBucketID (st_pb s)) = None \/
  Bucket (st_tx s) (fceBucketID (st_pb s)) = Some [] ->
  let h := Height (st_pb s) in
  applyMaturedSiacoinOutputs s =
    (if h >? MaturityDelay
     then (returned_or (fst (deleteDSCOBucket (st_tx s) h)),
           {| st_tx := snd (deleteDSCOBucket (st_tx s) h);
              st_pb := st_pb s |})
     else (Returned tt, s)) /\
  applyFileContractMaintenance s = (Returned tt, s).
Proof.
  intros Hd Hb h. subst h. split.
  - destruct (Z.gtb_spec (Height (st_pb s)) MaturityDelay) as [Hgt|Hle].
    + rewrite (applyMaturedSiacoinOutputs_old_enough s Hgt), Hd.
      rewrite bind_run. simpl. now rewrite call_run.
    + unfold applyMaturedSiacoinOutputs. rewrite bind_run. simpl.
      destruct (Z.gtb_spec (Height (st_pb s)) MaturityDelay); [lia|].
      reflexivity.
  - rewrite applyFileContractMaintenance_run.
    destruct Hb as [-> | ->]; reflexivity.
Qed.

(** C8, as stated, fails: at height 20 the bucket of the delayed ledger is
    there and empty and no contract expires, so there is nothing to drain
    and nothing to settle; the store refuses the deletion of the bucket, and
    maturation promotion returns that error. *)
Lemma nothing_to_do_is_no_op_counterexample :
  let s := mem_st 5 true txEmptyBucket blkNone 20 in
  dscoBucket (st_tx s) (Height (st_pb s)) = [] /\
  Bucket (st_tx s) (fceBucketID (st_pb s)) = None /\
  applyMaturedSiacoinOutputs s = (Failed errWrite, s).
Proof. intros s. repeat split. Qed.

(** An empty store above the delay: maturation returns what the deletion
    returns, here no error; the same store with an empty bucket that cannot
    be deleted: maturation returns the error of the deletion and records
    nothing. *)
Lemma nothing_to_do_records_nothing_witness :
  let s := mem_st 5 true (emptyTx 0) blkNone 20 in
  let s' := mem_st 5 true txEmptyBucket blkNone 20 in
  (applyMaturedSiacoinOutputs s = (Returned tt, s) /\
   applyFileContractMaintenance s = (Returned tt, s)) /\
  (applyMaturedSiacoinOutputs s' =
     (returned_or (fst (mem_deleteDSCOBucket txEmptyBucket 20)), s') /\
   applyFileContractMaintenance s' = (Returned tt, s')).
Proof.
  intros s s'. split.
  - exact (@nothing_to_do_records_nothing (memStore 5 true) s eq_refl
             (or_introl eq_refl)).
  - exact (@nothing_to_do_records_nothing (memStore 5 true) s' eq_refl
             (or_introl eq_refl)).
Defined.

(** * The expiry index during contract-expiry settlement *)

Section ExpiryIndex.
Context {C : Collaborators}.

(** A property of the store that the commits issued by the settlement keep:
    the commit, in direction Apply, of an Apply delayed diff and of a Revert
    contract diff. *)
Variable P : Tx -> Prop.
Hypothesis P_delayed : forall tx d,
  dscod_Direction d = DiffApply -> P tx ->
  P (snd (commitDelayedSiacoinOutputDiff tx d DiffApply)).
Hypothesis P_contract : forall tx d,
  fcd_Direction d = DiffRevert -> P tx ->
  P (snd (commitFileContractDiff tx d DiffApply)).





End ExpiryIndex.





(** * Diffs are kept when a commit is refused *)

Section KeptDiffs.
Context {C : Collaborators}.







End KeptDiffs.

